(** * Transaction job queue of the REST sample (jobs.ts, index.ts, config)

    A shallow embedding of the job-processing core: the job record model,
    the worker function [processTransactionJob], the helper
    [addTransactionJob], the read model [getJob] / [getAllJobs] /
    [getJobSummary], the queue and worker set-up, and the life cycle the
    queue library gives a job around the worker function. *)

From Stdlib.Strings Require Byte.
From Stdlib Require Import Ascii.
From stdpp Require Import gmap strings list fin_maps pretty.

Local Open Scope string_scope.
Local Open Scope list_scope.
Local Open Scope Z_scope.

(** ** Job record model (jobs.ts) *)

(** [Buffer] and [Uint8Array]: sequences of bytes. *)
Abbreviation Buffer := (list Byte.byte).
Abbreviation Uint8Array := (list Byte.byte).

Module JobData.
Record t := mk {
  mspId : string;
  transactionName : string;
  submit : bool;
  transactionArgs : list string;
  transactionState : option Buffer;
  transactionIds : list string;
}.
End JobData.
Abbreviation JobData := JobData.t.

Module JobResult.
Record t := mk {
  transactionPayload : option string;
  transactionError : option string;
}.

(** Exactly one of the two fields is set. *)
Definition exactlyOne (r : t) : bool :=
  xorb (bool_decide (is_Some (transactionPayload r)))
       (bool_decide (is_Some (transactionError r))).

(** Neither field is set. *)
Definition empty (r : t) : bool :=
  bool_decide (transactionPayload r = None) &&
  bool_decide (transactionError r = None).
End JobResult.
Abbreviation JobResult := JobResult.t.

Module JobSummary.
(** [result] is an optional property whose value is the job's
    [returnvalue], itself null until the processor has returned: the outer
    option is the presence of the property, the inner one its value. *)
Record t := mk {
  jobId : string;
  name : string;
  state : string;
  attempts : Z;
  transactionIds : list string;
  result : option (option JobResult);
}.
End JobSummary.
Abbreviation JobSummary := JobSummary.t.

(** [JobNotFoundError(message, jobId)]. *)
Record JobNotFoundError := mkJobNotFoundError {
  message : string;
  notFoundJobId : string;
}.

(** The outcome of an awaited promise: its value, or what it was rejected
    with. *)
Inductive Settled (E A : Type) : Type :=
| Resolved (a : A)
| Rejected (e : E).
Arguments Resolved {E A} a.
Arguments Rejected {E A} e.

(** The retry actions of errors.ts, as jobs.ts names them. *)
Module RetryAction.
Inductive t := WithExistingTransactionId | WithNewTransactionId | None.

Definition eqb (a b : t) : bool :=
  match a, b with
  | WithExistingTransactionId, WithExistingTransactionId
  | WithNewTransactionId, WithNewTransactionId
  | None, None => true
  | _, _ => false
  end.

End RetryAction.
Abbreviation RetryAction := RetryAction.t.

(** ** Collaborators of jobs.ts

    What jobs.ts imports and does not define: the values thrown by the
    ledger calls, the contract handle of the gateway, the error classifier of
    errors.ts, the template-literal conversion of a caught value, and the
    platform's UTF-8 decoder. *)
Class Collaborators := {
  Error : Type;
  Contract : Type;
  getRetryAction : Error → RetryAction;
  errorText : Error → string;
  utf8Decode : Uint8Array → string;
}.

(** The result of [getContracts] stored in [app.locals] under an MSP id. *)
Record Contracts `{Collaborators} := mkContracts {
  contract : Contract;
  qsccContract : Contract;
}.

(** [app.locals], read by MSP id. *)
Abbreviation Locals := (gmap string Contracts).

(** The two ledger calls of fabric.ts as one attempt sees them: each resolves
    with the payload bytes or rejects with an error. *)
Record Ledger `{Collaborators} := mkLedger {
  submitTransaction : Contract → string → list string → Settled Error Uint8Array;
  evatuateTransaction : Contract → string → list string → Settled Error Uint8Array;
}.

(** ** The effects of one run of the worker function *)

Inductive LogLevel := LvlDebug | LvlWarn | LvlError.

Inductive Effect `{Collaborators} :=
| Log (level : LogLevel) (msg : string)
| Submit (c : Contract) (transactionName : string) (args : list string)
| Evaluate (c : Contract) (transactionName : string) (args : list string).

(** An async function body: the effects it performed, in order, and how its
    promise settled. *)
Definition Proc `{Collaborators} (A : Type) : Type :=
  (list Effect * Settled Error A)%type.

Section ProcMonad.
Context `{Collaborators}.

#[export] Instance Proc_ret : MRet Proc := λ A a, ([], Resolved a).

#[export] Instance Proc_bind : MBind Proc := λ A B k m,
  match m with
  | (tr, Resolved a) => let '(tr', r) := k a in (tr ++ tr', r)
  | (tr, Rejected e) => (tr, Rejected e)
  end.

Definition throw {A} (e : Error) : Proc A := ([], Rejected e).

(** [try { body } catch (err) { handler }] *)
Definition tryCatch {A} (body : Proc A) (handler : Error → Proc A) : Proc A :=
  match body with
  | (tr, Resolved a) => (tr, Resolved a)
  | (tr, Rejected e) => let '(tr', r) := handler e in (tr ++ tr', r)
  end.

Definition log (level : LogLevel) (msg : string) : Proc unit :=
  ([Log level msg], Resolved tt).

Definition callSubmit (ledger : Ledger) (c : Contract) (name : string)
    (args : list string) : Proc Uint8Array :=
  ([Submit c name args], submitTransaction ledger c name args).

Definition callEvaluate (ledger : Ledger) (c : Contract) (name : string)
    (args : list string) : Proc Uint8Array :=
  ([Evaluate c name args], evatuateTransaction ledger c name args).

Definition effects {A} (m : Proc A) : list Effect := m.1.
Definition settled {A} (m : Proc A) : Settled Error A := m.2.

(** The ledger calls among the effects of a run. *)
Definition isLedgerCall (e : Effect) : bool :=
  match e with
  | Log _ _ => false
  | Submit _ _ _ | Evaluate _ _ _ => true
  end.

Definition ledgerCalls {A} (m : Proc A) : list Effect :=
  List.filter isLedgerCall (effects m).
End ProcMonad.

(** ** Configuration (config.ts) *)

Module config.
Inductive BackoffType := fixed | exponential.

Inductive ConfigError :=
| NotAValidInteger (variable : string)
| NotOneOf (variable : string) (allowed : list string)
| NotABoolean (variable : string).

(** The settings the job queue consumes. *)
Record t := mk {
  submitJobBackoffType : BackoffType;
  submitJobBackoffDelay : Z;
  submitJobAttempts : Z;
  submitJobConcurrency : Z;
  maxCompletedSubmitJobs : Z;
  maxFailedSubmitJobs : Z;
  submitJobQueueScheduler : bool;
}.

(** [process.env]. *)
Abbreviation Env := (gmap string string).

(** [env.get(variable).default(dflt)]: the variable's value, or the default
    when it is not set. *)
Definition get (env : Env) (variable dflt : string) : string :=
  default dflt (env !! variable).

Definition digitValue (c : ascii) : option Z :=
  let n := Z.of_nat (nat_of_ascii c) in
  if (48 <=? n) && (n <=? 57) then Some (n - 48) else None.

Fixpoint parseDigits (s : string) (acc : Z) : option Z :=
  match s with
  | EmptyString => Some acc
  | String c s' => d ← digitValue c; parseDigits s' (10 * acc + d)
  end.

(** A decimal integer, with an optional minus sign. *)
Definition parseInt (s : string) : option Z :=
  match s with
  | EmptyString => None
  | String "-"%char EmptyString => None
  | String "-"%char s' => Z.opp <$> parseDigits s' 0
  | _ => parseDigits s 0
  end.

Definition asInt (variable value : string) : ConfigError + Z :=
  match parseInt value with
  | Some z => inr z
  | None => inl (NotAValidInteger variable)
  end.

Definition asBackoffType (variable value : string) : ConfigError + BackoffType :=
  if String.eqb value "fixed" then inr fixed
  else if String.eqb value "exponential" then inr exponential
  else inl (NotOneOf variable ["fixed"; "exponential"]).

Definition asBoolStrict (variable value : string) : ConfigError + bool :=
  if String.eqb value "true" || String.eqb value "TRUE" then inr true
  else if String.eqb value "false" || String.eqb value "FALSE" then inr false
  else inl (NotABoolean variable).

(** Validation threads the first error through: the error monad on
    [ConfigError + _]. *)
#[export] Instance validated_ret : MRet (sum ConfigError) := λ A a, inr a.
#[export] Instance validated_bind : MBind (sum ConfigError) := λ A B k m,
  match m with
  | inl e => inl e
  | inr a => k a
  end.

(** The environment variables the job queue settings are read from. *)
Definition queueVariables : list string :=
  ["SUBMIT_JOB_BACKOFF_TYPE"; "SUBMIT_JOB_BACKOFF_DELAY";
   "SUBMIT_JOB_ATTEMPTS"; "SUBMIT_JOB_CONCURRENCY";
   "MAX_COMPLETED_SUBMIT_JOBS"; "MAX_FAILED_SUBMIT_JOBS";
   "SUBMIT_JOB_QUEUE_SCHEDULER"].

(** Modelled from the spec: config.ts is not among the sources, only its
    test suite is.  The attempt limit defaults to 5, the backoff type to
    fixed, the base delay to 3000 ms, the worker concurrency to 5, the
    retention caps of completed and failed jobs to 1000 each, and the
    scheduler is enabled by default; the variable names, and which values
    are refused, are those the test suite exercises.  A setting that does
    not validate is an error raised when the module is loaded. *)
Definition load (env : Env) : ConfigError + t :=
  backoffType ← asBackoffType "SUBMIT_JOB_BACKOFF_TYPE"
                  (get env "SUBMIT_JOB_BACKOFF_TYPE" "fixed");
  backoffDelay ← asInt "SUBMIT_JOB_BACKOFF_DELAY"
                   (get env "SUBMIT_JOB_BACKOFF_DELAY" "3000");
  attempts ← asInt "SUBMIT_JOB_ATTEMPTS" (get env "SUBMIT_JOB_ATTEMPTS" "5");
  concurrency ← asInt "SUBMIT_JOB_CONCURRENCY"
                  (get env "SUBMIT_JOB_CONCURRENCY" "5");
  maxCompleted ← asInt "MAX_COMPLETED_SUBMIT_JOBS"
                   (get env "MAX_COMPLETED_SUBMIT_JOBS" "1000");
  maxFailed ← asInt "MAX_FAILED_SUBMIT_JOBS"
                (get env "MAX_FAILED_SUBMIT_JOBS" "1000");
  scheduler ← asBoolStrict "SUBMIT_JOB_QUEUE_SCHEDULER"
                (get env "SUBMIT_JOB_QUEUE_SCHEDULER" "true");
  mret {| submitJobBackoffType := backoffType;
          submitJobBackoffDelay := backoffDelay;
          submitJobAttempts := attempts;
          submitJobConcurrency := concurrency;
          maxCompletedSubmitJobs := maxCompleted;
          maxFailedSubmitJobs := maxFailed;
          submitJobQueueScheduler := scheduler |}.
End config.

(** ** Jobs and the queue *)

(** The job options jobs.ts sets ([defaultJobOptions]). *)
Record JobOptions := mkJobOptions {
  attempts : Z;
  backoffType : config.BackoffType;
  backoffDelay : Z;
  removeOnComplete : Z;
  removeOnFail : Z;
}.

Inductive JobState := waiting | delayed | active | completed | failed.

#[export] Instance JobState_eq_dec : EqDecision JobState.
Proof. solve_decision. Defined.

Module Job.
(** The queue library's job: [id] is optional in its type; [returnvalue]
    is null until the processor has returned. *)
Record t := mk {
  id : option string;
  name : string;
  data : JobData;
  opts : JobOptions;
  attemptsMade : Z;
  returnvalue : option JobResult;
  failedReason : option string;
  stalledCounter : Z;
  state : JobState;
}.

Definition withState (s : JobState) (j : t) : t :=
  mk (id j) (name j) (data j) (opts j) (attemptsMade j) (returnvalue j)
     (failedReason j) (stalledCounter j) s.
End Job.

(** The queue: its default job options, the jobs it stores by id, and the
    counter job ids are drawn from.  The connection options of the store are
    left out. *)
Record Queue := mkQueue {
  defaultJobOptions : JobOptions;
  jobs : gmap string Job.t;
  idCounter : N;
}.

(** The worker options jobs.ts sets. *)
Record WorkerOptions := mkWorkerOptions {
  concurrency : Z;
}.

(** Set up the queue for transaction jobs. *)
Definition initJobQueue (cfg : config.t) : Queue :=
  {| defaultJobOptions :=
       {| attempts := config.submitJobAttempts cfg;
          backoffType := config.submitJobBackoffType cfg;
          backoffDelay := config.submitJobBackoffDelay cfg;
          removeOnComplete := config.maxCompletedSubmitJobs cfg;
          removeOnFail := config.maxFailedSubmitJobs cfg |};
     jobs := ∅;
     idCounter := 0 |}.

(** The options of the worker [initJobQueueWorker] creates. *)
Definition initJobQueueWorker (cfg : config.t) : WorkerOptions :=
  {| concurrency := config.submitJobConcurrency cfg |}.

(** The scheduler [initJobQueueScheduler] creates for the submit queue. *)
Inductive QueueScheduler := SubmitQueueScheduler.

Definition initJobQueueScheduler : QueueScheduler := SubmitQueueScheduler.

(** What [main] of index.ts initialises for the submit queue: the queue, the
    worker, and the scheduler only when the setting is [true]. *)
Record Runtime := mkRuntime {
  jobQueue : Queue;
  jobQueueWorker : WorkerOptions;
  jobQueueScheduler : option QueueScheduler;
}.

Definition main (cfg : config.t) : Runtime :=
  {| jobQueue := initJobQueue cfg;
     jobQueueWorker := initJobQueueWorker cfg;
     jobQueueScheduler :=
       if bool_decide (config.submitJobQueueScheduler cfg = true)
       then Some initJobQueueScheduler else None |}.

(** A job as the queue creates it: waiting, no attempt made, no result. *)
Definition newJob (o : JobOptions) (n : N) (name : string) (data : JobData)
    : Job.t :=
  {| Job.id := Some (pretty n); Job.name := name; Job.data := data;
     Job.opts := o; Job.attemptsMade := 0; Job.returnvalue := None;
     Job.failedReason := None; Job.stalledCounter := 0;
     Job.state := waiting |}.

(** [queue.add(name, data)]: a new job under the next id of the queue's
    counter, with the queue's default options. *)
Definition Queue_add (name : string) (data : JobData) (q : Queue)
    : Job.t * Queue :=
  let n := (idCounter q + 1)%N in
  let job := newJob (defaultJobOptions q) n name data in
  (job, {| defaultJobOptions := defaultJobOptions q;
           jobs := <[pretty n := job]> (jobs q);
           idCounter := n |}).

(** The job data [addTransactionJob] enqueues. *)
Definition transactionJobData (mspId transactionName : string) (submit : bool)
    (transactionArgs : list string) : JobData :=
  {| JobData.mspId := mspId;
     JobData.transactionName := transactionName;
     JobData.submit := submit;
     JobData.transactionArgs := transactionArgs;
     JobData.transactionState := None;
     JobData.transactionIds := [] |}.

(** Helper to add a new submit transaction job to the queue. *)
Definition addTransactionJob (jobQueue : Queue) (mspId transactionName : string)
    (submit : bool) (transactionArgs : list string)
    : Settled string string * Queue :=
  let jobName := transactionName +:+ " transaction" in
  let '(job, jobQueue') :=
    Queue_add jobName
      (transactionJobData mspId transactionName submit transactionArgs)
      jobQueue in
  match Job.id job with
  | None => (Rejected "Job ID not available", jobQueue')
  | Some i => (Resolved i, jobQueue')
  end.

(** ** The read model (jobs.ts) *)

(** [job.getState()]. *)
Definition getState (job : Job.t) : string :=
  match Job.state job with
  | waiting => "waiting"
  | delayed => "delayed"
  | active => "active"
  | completed => "completed"
  | failed => "failed"
  end.

Definition isCompleted (job : Job.t) : bool :=
  bool_decide (Job.state job = completed).

Definition isFailed (job : Job.t) : bool :=
  bool_decide (Job.state job = failed).

(** [queue.getJob(jobId)]. *)
Definition Queue_getJob (q : Queue) (jobId : string) : option Job.t :=
  jobs q !! jobId.

(** [queue.getJobs(types)]: the stored jobs whose state is one of [types]. *)
Definition Queue_getJobs (q : Queue) (types : list string) : list Job.t :=
  filter (λ job, getState job ∈ types) (map_to_list (jobs q)).*2.

(** Gets a job summary.  [job.id || 'unknown'] also replaces the empty
    string; the guard on [job.data.transactionIds] always holds for a value
    of type [JobData]. *)
Definition getJobSummary (job : Job.t) : JobSummary :=
  let state := getState job in
  let transactionIds := JobData.transactionIds (Job.data job) in
  {| JobSummary.jobId :=
       match Job.id job with
       | Some i => if String.eqb i "" then "unknown" else i
       | None => "unknown"
       end;
     JobSummary.name := Job.name job;
     JobSummary.state := state;
     JobSummary.attempts := Job.attemptsMade job;
     JobSummary.transactionIds := transactionIds;
     JobSummary.result :=
       if isCompleted job || isFailed job then Some (Job.returnvalue job)
       else None |}.

Definition jobNotFound (jobId : string) : JobNotFoundError :=
  {| message := "Job " +:+ jobId +:+ " not found"; notFoundJobId := jobId |}.

(** Gets the summary of one job of the caller's MSP id.  The job must exist
    and have an id, and [job?.data?.mspId != mspId] compares the MSP ids
    ([job.data] is always there for a job of type [Job<JobData, JobResult>]);
    both refusals throw the same [JobNotFoundError]. *)
Definition getJob (mspId : string) (queue : Queue) (jobId : string)
    : Settled JobNotFoundError JobSummary :=
  match Queue_getJob queue jobId with
  | None => Rejected (jobNotFound jobId)
  | Some job =>
      match Job.id job with
      | None => Rejected (jobNotFound jobId)
      | Some _ =>
          if negb (String.eqb (JobData.mspId (Job.data job)) mspId)
          then Rejected (jobNotFound jobId)
          else Resolved (getJobSummary job)
      end
  end.

(** The state names [getAllJobs] asks the queue for. *)
Definition allJobTypes : list string :=
  ["active"; "completed"; "delayed"; "failed"; "paused"; "repeat"; "wait";
   "waiting"; "waiting-children"].

(** Get all the jobs of the caller's MSP id: the jobs of every state whose
    [data.mspId] is the caller's, each as its summary. *)
Definition getAllJobs (mspId : string) (queue : Queue) : list JobSummary :=
  let jobs := Queue_getJobs queue allJobTypes in
  getJobSummary <$>
    filter (λ job, String.eqb (JobData.mspId (Job.data job)) mspId = true) jobs.

(** ** The worker function (jobs.ts) *)

Section Worker.
Context `{Collaborators}.

(** The ledger call of an attempt: submit or evaluate, as the job says. *)
Definition invoke (ledger : Ledger) (contract : Contract) (job : Job.t)
    : Proc Uint8Array :=
  let args := JobData.transactionArgs (Job.data job) in
  if JobData.submit (Job.data job)
  then callSubmit ledger contract (JobData.transactionName (Job.data job)) args
  else callEvaluate ledger contract
         (JobData.transactionName (Job.data job)) args.

(** How the ledger answers that call. *)
Definition ledgerReply (ledger : Ledger) (contract : Contract) (job : Job.t)
    : Settled Error Uint8Array :=
  settled (invoke ledger contract job).

(** Process a transaction request from the job queue.  The job is retried
    if this function throws. *)
Definition processTransactionJob (locals : Locals) (ledger : Ledger)
    (job : Job.t) : Proc JobResult :=
  log LvlDebug "Processing job" ;;
  match contract <$> locals !! JobData.mspId (Job.data job) with
  | None =>
      log LvlError "Contract not found for MSP ID %s" ;;
      (* Retrying will never work without a contract, so give up with an
         empty job result *)
      mret {| JobResult.transactionError := None;
              JobResult.transactionPayload := None |}
  | Some contract =>
      match JobData.transactionState (Job.data job) with
      | Some savedState =>
          log LvlDebug "Reusing previously saved transaction state"
      | None => log LvlDebug "Using new transaction"
      end ;;
      log LvlDebug "Processing transaction" ;;
      tryCatch
        (result ← invoke ledger contract job;
         mret {| JobResult.transactionError := None;
                 JobResult.transactionPayload := Some (utf8Decode result) |})
        (λ err,
           let retryAction := getRetryAction err in
           if RetryAction.eqb retryAction RetryAction.None then
             log LvlError "Fatal transaction error occurred" ;;
             (* Not retriable so return a job result with the error
                details *)
             mret {| JobResult.transactionError := Some (errorText err);
                     JobResult.transactionPayload := None |}
           else
             log LvlWarn "Retryable transaction error occurred" ;;
             (if RetryAction.eqb retryAction RetryAction.WithNewTransactionId
              then log LvlDebug "Clearing saved transaction state"
                   (* the call that would update the job data is disabled *)
              else mret tt) ;;
             (* Rethrow the error to keep retrying *)
             throw err)
  end.

(** ** The life cycle the queue gives a job

    The queue library (not part of the repository) runs the worker
    function on a job it has made active, and settles the job by how the
    function's promise settles. *)

(** Modelled from the spec: the queue library's worker is not among the
    sources.  On success the result is recorded and the job becomes
    [completed]; [attemptsMade] is incremented once per execution attempt.
    To the queue an attempt succeeded when the promise of the function
    handed to the worker ([initJobQueueWorker]) resolved: returning a
    [JobResult] and throwing are the only two ways jobs.ts has to end an
    attempt, and the returned value is what [getJobSummary] later reads as
    [job.returnvalue]. *)
Definition moveToCompleted (r : JobResult) (job : Job.t) : Job.t :=
  Job.mk (Job.id job) (Job.name job) (Job.data job) (Job.opts job)
    (Job.attemptsMade job + 1) (Some r) (Job.failedReason job)
    (Job.stalledCounter job) completed.

(** Modelled from the spec: the queue's retry machinery is the queue
    library's, not among the sources.  A job whose worker function throws is
    re-scheduled ([delayed], pending backoff) while attempts remain, and is
    [failed], with the last error captured, once they are exhausted;
    [attemptsMade] is incremented once per execution attempt.  This is the
    machinery jobs.ts re-throws to: the job is retried if the function
    throws. *)
Definition moveToFailed (e : Error) (job : Job.t) : Job.t :=
  let made := Job.attemptsMade job + 1 in
  if made <? attempts (Job.opts job) then
    Job.mk (Job.id job) (Job.name job) (Job.data job) (Job.opts job) made
      (Job.returnvalue job) (Job.failedReason job)
      (Job.stalledCounter job) delayed
  else
    Job.mk (Job.id job) (Job.name job) (Job.data job) (Job.opts job) made
      (Job.returnvalue job) (Some (errorText e))
      (Job.stalledCounter job) failed.

(** The worker settles the job by how the promise of the worker function
    settled. *)
Definition settle (outcome : Settled Error JobResult) (job : Job.t) : Job.t :=
  match outcome with
  | Resolved r => moveToCompleted r job
  | Rejected e => moveToFailed e job
  end.

(** One execution attempt of an active job: run the worker function, then
    settle the job.  Only an active job is executed. *)
Definition attempt (locals : Locals) (ledger : Ledger) (job : Job.t) : Job.t :=
  if decide (Job.state job = active)
  then settle (settled (processTransactionJob locals ledger job)) job
  else job.

(** Modelled from the spec: the queue's state machine is the queue
    library's, not among the sources.  A waiting job becomes active when the
    worker claims it. *)
Definition claim (job : Job.t) : Job.t :=
  if decide (Job.state job = waiting) then Job.withState active job else job.

(** Modelled from the spec: the scheduler of the queue library is not among
    the sources.  A delayed job whose backoff has elapsed is promoted to
    waiting. *)
Definition promote (job : Job.t) : Job.t :=
  if decide (Job.state job = delayed) then Job.withState waiting job else job.

(** Modelled from the spec: the stall monitor of the queue library is not
    among the sources.  A job stuck in active is returned to waiting for
    re-delivery, counted by a stall counter distinct from [attemptsMade]. *)
Definition stall (job : Job.t) : Job.t :=
  if decide (Job.state job = active) then
    Job.mk (Job.id job) (Job.name job) (Job.data job) (Job.opts job)
      (Job.attemptsMade job) (Job.returnvalue job) (Job.failedReason job)
      (Job.stalledCounter job + 1) waiting
  else job.

(** Completed and failed are the terminal states. *)
Definition isTerminal (job : Job.t) : bool := isCompleted job || isFailed job.

(** What can happen to the queue: a request enqueues a job, the worker
    claims and executes one, the scheduler promotes or un-stalls one, and
    the queue purges a finished job it no longer retains. *)
Inductive Event :=
| Enqueue (mspId transactionName : string) (submit : bool)
          (transactionArgs : list string)
| Claim (jobId : string)
| Execute (jobId : string) (ledger : Ledger)
| Promote (jobId : string)
| Stall (jobId : string)
| Purge (jobId : string).

(** Apply a transition to the job stored under an id, if there is one. *)
Definition updateJob (f : Job.t → Job.t) (jobId : string) (q : Queue) : Queue :=
  {| defaultJobOptions := defaultJobOptions q;
     jobs := alter f jobId (jobs q);
     idCounter := idCounter q |}.

(** Modelled from the spec: retention is the queue library's, not among the
    sources.  Only finished jobs are purged; which ones the retention caps
    ([removeOnComplete], [removeOnFail]) select is left open here. *)
Definition purge (jobId : string) (q : Queue) : Queue :=
  match jobs q !! jobId with
  | Some job =>
      if isTerminal job then
        {| defaultJobOptions := defaultJobOptions q;
           jobs := delete jobId (jobs q);
           idCounter := idCounter q |}
      else q
  | None => q
  end.

(** The queue after one event.  Finishing a job and the eviction the
    retention caps may then cause are two events: an [Execute] leaves every
    other job in place, and a [Purge] may follow it. *)
Definition step (locals : Locals) (ev : Event) (q : Queue) : Queue :=
  match ev with
  | Enqueue mspId transactionName submit transactionArgs =>
      (addTransactionJob q mspId transactionName submit transactionArgs).2
  | Claim jobId => updateJob claim jobId q
  | Execute jobId ledger => updateJob (attempt locals ledger) jobId q
  | Promote jobId => updateJob promote jobId q
  | Stall jobId => updateJob stall jobId q
  | Purge jobId => purge jobId q
  end.

(** The queue after a sequence of events, oldest first. *)
Definition run (locals : Locals) (evs : list Event) (q : Queue) : Queue :=
  foldl (λ q ev, step locals ev q) q evs.

(** ** Predicates the properties are stated with *)

(** The job has no result yet ([returnvalue] is null). *)
Definition noResult (job : Job.t) : bool :=
  match Job.returnvalue job with
  | None => true
  | Some _ => false
  end.

(** The shape of a job's result by its state: a completed job of an MSP id
    with a contract has exactly one of payload and error, a completed job
    of an MSP id without a contract has an empty result, and a failed or
    pending job has no result. *)
Definition resultShape (locals : Locals) (job : Job.t) : bool :=
  match Job.state job with
  | completed =>
      match Job.returnvalue job with
      | Some r =>
          if decide (is_Some (locals !! JobData.mspId (Job.data job)))
          then JobResult.exactlyOne r
          else JobResult.empty r
      | None => false
      end
  | failed | waiting | delayed | active => noResult job
  end.

(** The job data is as [addTransactionJob] creates it. *)
Definition pristine (data : JobData) : Prop :=
  JobData.transactionIds data = [] ∧ JobData.transactionState data = None.

(** The id was drawn from the queue's counter. *)
Definition issued (q : Queue) (jobId : string) : Prop :=
  ∃ n : N, (n ≤ idCounter q)%N ∧ jobId = pretty n.


End Worker.

(** ** A concrete set of collaborators, for running the model

    Errors are named by strings; the sample classifier retries a timeout with
    the existing transaction id, retries a conflict with a new one, and
    treats everything else as permanent. *)
Module Sample.
Definition classify (e : string) : RetryAction :=
  if String.eqb e "timeout" then RetryAction.WithExistingTransactionId
  else if String.eqb e "conflict" then RetryAction.WithNewTransactionId
  else RetryAction.None.

Definition collaborators : Collaborators :=
  {| Error := string;
     Contract := string;
     getRetryAction := classify;
     errorText := λ e, "Error: " +:+ e;
     utf8Decode := String.string_of_list_byte |}.

#[local] Existing Instance collaborators.

(** Only Org1MSP has a contract. *)
Definition org1Contracts : Contracts :=
  {| contract := "basic"; qsccContract := "qscc" |}.

Definition locals : Locals := {[ "Org1MSP" := org1Contracts ]}.

(** A ledger on which every call is rejected with the given error. *)
Definition failing (e : string) : Ledger :=
  {| submitTransaction := λ _ _ _, Rejected e;
     evatuateTransaction := λ _ _ _, Rejected e |}.

(** A ledger on which every call resolves with the bytes of "ok". *)
Definition succeeding : Ledger :=
  {| submitTransaction := λ _ _ _, Resolved (String.list_byte_of_string "ok");
     evatuateTransaction :=
       λ _ _ _, Resolved (String.list_byte_of_string "ok") |}.

Definition cfg : config.t :=
  {| config.submitJobBackoffType := config.fixed;
     config.submitJobBackoffDelay := 3000;
     config.submitJobAttempts := 5;
     config.submitJobConcurrency := 5;
     config.maxCompletedSubmitJobs := 1000;
     config.maxFailedSubmitJobs := 1000;
     config.submitJobQueueScheduler := true |}.

Definition options : JobOptions := defaultJobOptions (initJobQueue cfg).

(** The jobs of two organisations as the queue holds them once the worker
    has claimed them. *)
Definition org1Job : Job.t :=
  Job.withState active
    (newJob options 1 "Transfer transaction"
       (transactionJobData "Org1MSP" "Transfer" true ["alice"; "bob"; "10"])).

Definition org3Job : Job.t :=
  Job.withState active
    (newJob options 2 "Transfer transaction"
       (transactionJobData "Org3MSP" "Transfer" true ["carol"; "dave"; "1"])).

(** A job of Org1MSP claimed by the worker, and nothing else. *)
Definition oneJob : Queue :=
  run locals
    [Enqueue "Org1MSP" "Transfer" true ["alice"; "bob"; "10"]; Claim "1"]
    (initJobQueue cfg).

(** An active job of Org1MSP that carries a saved transaction state and
    one recorded transaction id. *)
Definition resumedJob : Job.t :=
  {| Job.id := Some "1"; Job.name := "Transfer transaction";
     Job.data :=
       {| JobData.mspId := "Org1MSP";
          JobData.transactionName := "Transfer";
          JobData.submit := true;
          JobData.transactionArgs := ["alice"; "bob"; "10"];
          JobData.transactionState := Some (String.list_byte_of_string "tx");
          JobData.transactionIds := ["txid1"] |};
     Job.opts := options; Job.attemptsMade := 0; Job.returnvalue := None;
     Job.failedReason := None; Job.stalledCounter := 0;
     Job.state := active |}.

(** The one-job queue after an attempt that failed with a conflict, once
    the backoff has elapsed and the worker has claimed the job again. *)
Definition conflictRetry : Queue :=
  run locals [Execute "1" (failing "conflict"); Promote "1"; Claim "1"] oneJob.




(** An environment that sets every job queue variable, each to a value of
    its own. *)
Definition customEnv : config.Env :=
  {[ "SUBMIT_JOB_BACKOFF_TYPE" := "exponential";
     "SUBMIT_JOB_BACKOFF_DELAY" := "100";
     "SUBMIT_JOB_ATTEMPTS" := "9";
     "SUBMIT_JOB_CONCURRENCY" := "3";
     "MAX_COMPLETED_SUBMIT_JOBS" := "7";
     "MAX_FAILED_SUBMIT_JOBS" := "8";
     "SUBMIT_JOB_QUEUE_SCHEDULER" := "false" ]}.

(** The settings that environment loads as. *)
Definition custom : config.t :=
  {| config.submitJobBackoffType := config.exponential;
     config.submitJobBackoffDelay := 100;
     config.submitJobAttempts := 9;
     config.submitJobConcurrency := 3;
     config.maxCompletedSubmitJobs := 7;
     config.maxFailedSubmitJobs := 8;
     config.submitJobQueueScheduler := false |}.

(** The one-job queue after an attempt that failed with an error the
    classifier treats as permanent. *)
Definition afterPermanentError : Queue :=
  run locals [Execute "1" (failing "bad")] oneJob.

(** A queue with a job for each of two organisations, both claimed by the
    worker. *)
Definition twoJobs : Queue :=
  run locals
    [Enqueue "Org1MSP" "Transfer" true ["alice"; "bob"; "10"];
     Enqueue "Org3MSP" "Transfer" true ["carol"; "dave"; "1"];
     Claim "1"; Claim "2"]
    (initJobQueue cfg).

(** The two-job queue after the worker executed the job of the
    organisation without a contract. *)
Definition afterMissingContract : Queue :=
  run locals [Execute "2" succeeding] twoJobs.
End Sample.

(** ** The ledger calls (fabric.ts)

    [evatuateTransaction] and [submitTransaction] drive a proposal of the
    gateway library.  What the library's objects answer during one call is
    given as data: a proposal has its transaction id, the outcome of
    evaluating it and the outcome of endorsing it; an endorsed transaction
    has its result and the outcome of submitting it; a submitted commit has
    the outcome of asking for its status. *)
Module fabric.
Record Status := mkStatus {
  successful : bool;
  code : Z;
}.

Record Commit (Raw : Type) := mkCommit {
  getStatus : Settled Raw Status;
}.
Arguments mkCommit {Raw}.
Arguments getStatus {Raw}.

Record Transaction (Raw : Type) := mkTransaction {
  getResult : Uint8Array;
  submit : Settled Raw (Commit Raw);
}.
Arguments mkTransaction {Raw}.
Arguments getResult {Raw}.
Arguments submit {Raw}.

Record Proposal (Raw : Type) := mkProposal {
  getTransactionId : string;
  evaluate : Settled Raw Uint8Array;
  endorse : Settled Raw (Transaction Raw);
}.
Arguments mkProposal {Raw}.
Arguments getTransactionId {Raw}.
Arguments evaluate {Raw}.
Arguments endorse {Raw}.

(** The calls made on the gateway library, by transaction id. *)
Inductive GatewayCall :=
| Evaluated (transactionId : string)
| Endorsed (transactionId : string)
| Submitted (transactionId : string)
| StatusAsked (transactionId : string).

Section Calls.
Context `{Collaborators}.
(** [Raw]: what the gateway library throws.  [handleError] is the
    conversion of errors.ts, which is not among the sources.
    [newProposal contract name args] is
    [contract.newProposal(name, { arguments: args })]. *)
Context {Raw : Type}.
Variable handleError : string → Raw → Error.
Variable newProposal : Contract → string → list string → Proposal Raw.

(** Evaluate a transaction and handle any errors. *)
Definition evatuateTransaction (contract : Contract) (transactionName : string)
    (transactionArgs : list string) : list GatewayCall * Settled Error Uint8Array :=
  let proposal := newProposal contract transactionName transactionArgs in
  let transactionId := getTransactionId proposal in
  match evaluate proposal with
  | Resolved result => ([Evaluated transactionId], Resolved result)
  | Rejected err =>
      ([Evaluated transactionId], Rejected (handleError transactionId err))
  end.

(** Submit a transaction and handle any errors: endorse, submit, take the
    result, then wait for the commit status. *)
Definition submitTransaction (contract : Contract) (transactionName : string)
    (transactionArgs : list string) : list GatewayCall * Settled Error Uint8Array :=
  let proposal := newProposal contract transactionName transactionArgs in
  let transactionId := getTransactionId proposal in
  match endorse proposal with
  | Rejected err =>
      ([Endorsed transactionId], Rejected (handleError transactionId err))
  | Resolved transaction =>
      match submit transaction with
      | Rejected err =>
          ([Endorsed transactionId; Submitted transactionId],
           Rejected (handleError transactionId err))
      | Resolved commit =>
          let result := getResult transaction in
          match getStatus commit with
          | Rejected err =>
              ([Endorsed transactionId; Submitted transactionId;
                StatusAsked transactionId],
               Rejected (handleError transactionId err))
          | Resolved status =>
              ([Endorsed transactionId; Submitted transactionId;
                StatusAsked transactionId],
               Resolved result)
          end
      end
  end.

(** The two calls as the worker function sees them. *)
Definition ledger : Ledger :=
  mkLedger _
    (λ contract transactionName transactionArgs,
       (submitTransaction contract transactionName transactionArgs).2)
    (λ contract transactionName transactionArgs,
       (evatuateTransaction contract transactionName transactionArgs).2).
End Calls.
End fabric.

(** ** Start-up wiring (index.ts, with fabric.ts and grpc.ts)

    The identities, signers, connections and gateways [main] creates, and
    the contracts it stores in [app.locals].  The settings come from
    config.ts, which is not among the sources, and are taken as given;
    start-up steps that fail end [main] before any job is processed. *)
Module index.
Record FabricConfig := mkFabricConfig {
  mspIdOrg1 : string;
  mspIdOrg2 : string;
  certificateOrg1 : string;
  certificateOrg2 : string;
  privateKeyOrg1 : string;
  privateKeyOrg2 : string;
  tlsRootCertificateOrg1 : string;
  tlsRootCertificateOrg2 : string;
  peerAddressOrg1 : string;
  peerAddressOrg2 : string;
  peerAliasOrg1 : option string;
  peerAliasOrg2 : option string;
  channelName : string;
  chaincodeName : string;
}.

(** The gateway library's [Identity]: the MSP id and the certificate's
    bytes. *)
Record Identity := mkIdentity {
  mspId : string;
  credentials : Uint8Array;
}.

(** A signer, known by the private key it was made from. *)
Record Signer := mkSigner {
  privateKey : string;
}.

(** A gRPC client, known by what it was created with. *)
Record Client := mkClient {
  tlsRootCert : string;
  peerEndpoint : string;
  sslTargetNameOverride : option string;
}.

Record Gateway := mkGateway {
  identity : Identity;
  signer : Signer;
  client : Client;
}.

(** A contract of a gateway: the channel and the chaincode it names. *)
Record ContractHandle := mkContractHandle {
  gateway : Gateway;
  channel : string;
  chaincode : string;
}.

Definition createGrpcConnection (tlsRootCert peerEndpoint : string)
    (peerHostAlias : option string) : Client :=
  {| tlsRootCert := tlsRootCert;
     peerEndpoint := peerEndpoint;
     sslTargetNameOverride := peerHostAlias |}.

Definition createIdentity (mspId certificate : string) : Identity :=
  {| mspId := mspId;
     credentials := String.list_byte_of_string certificate |}.

Definition createSigner (privateKey : string) : Signer :=
  {| privateKey := privateKey |}.

(** Create a Gateway connection. *)
Definition createGateway (identity : Identity) (signer : Signer)
    (client : Client) : Gateway :=
  {| identity := identity; signer := signer; client := client |}.

Section Wiring.
(** The collaborators of jobs.ts when contracts are the gateway's. *)
Context {E : Type} (classify : E → RetryAction) (text : E → string)
        (decode : Uint8Array → string).

Definition collaborators : Collaborators :=
  {| Error := E;
     Contract := ContractHandle;
     getRetryAction := classify;
     errorText := text;
     utf8Decode := decode |}.

#[local] Existing Instance collaborators.

(** Get the chaincode contract and the qscc system contract. *)
Definition getContracts (cfg : FabricConfig) (gateway : Gateway) : Contracts :=
  {| contract := mkContractHandle gateway (channelName cfg) (chaincodeName cfg);
     qsccContract := mkContractHandle gateway (channelName cfg) "qscc" |}.

(** [contractsOrg1] of [main]. *)
Definition contractsOrg1 (cfg : FabricConfig) : Contracts :=
  let clientOrg1 :=
    createGrpcConnection (tlsRootCertificateOrg1 cfg) (peerAddressOrg1 cfg)
      (peerAliasOrg1 cfg) in
  let identityOrg1 := createIdentity (mspIdOrg1 cfg) (certificateOrg1 cfg) in
  let signerOrg1 := createSigner (privateKeyOrg1 cfg) in
  let gatewayOrg1 := createGateway identityOrg1 signerOrg1 clientOrg1 in
  getContracts cfg gatewayOrg1.

(** [contractsOrg2] of [main]: the identity and the signer are created from
    the first organisation's settings, as the source has it. *)
Definition contractsOrg2 (cfg : FabricConfig) : Contracts :=
  let clientOrg2 :=
    createGrpcConnection (tlsRootCertificateOrg2 cfg) (peerAddressOrg2 cfg)
      (peerAliasOrg2 cfg) in
  let identityOrg2 := createIdentity (mspIdOrg1 cfg) (certificateOrg1 cfg) in
  let signerOrg2 := createSigner (privateKeyOrg1 cfg) in
  let gatewayOrg2 := createGateway identityOrg2 signerOrg2 clientOrg2 in
  getContracts cfg gatewayOrg2.

(** The contracts [main] stores in [app.locals]: the first organisation's
    under its MSP id, then the second's under its MSP id. *)
Definition locals (cfg : FabricConfig) : Locals :=
  <[mspIdOrg2 cfg := contractsOrg2 cfg]>
    (<[mspIdOrg1 cfg := contractsOrg1 cfg]> ∅).
End Wiring.
End index.

(** ** The jobs endpoints (jobs.router.ts) *)

Module StatusCodes.
Inductive t := OK | ACCEPTED | BAD_REQUEST | NOT_FOUND | INTERNAL_SERVER_ERROR.

Definition getReasonPhrase (statusCode : t) : string :=
  match statusCode with
  | OK => "OK"
  | ACCEPTED => "Accepted"
  | BAD_REQUEST => "Bad Request"
  | NOT_FOUND => "Not Found"
  | INTERNAL_SERVER_ERROR => "Internal Server Error"
  end.
End StatusCodes.

Module jobsRouter.
(** An entry of [errors.array()]. *)
Record ValidationError := mkValidationError {
  param : string;
  msg : string;
}.

(** The JSON bodies the endpoints answer with. *)
Inductive Body :=
| Summaries (jobs : list JobSummary)
| Summary (job : JobSummary)
| Problem (status timestamp : string)
| Accepted (status jobId timestamp : string)
| Invalid (status reason message timestamp : string)
          (errors : list ValidationError).

Record Response := mkResponse {
  status : StatusCodes.t;
  json : Body;
}.

(** What a handler can catch: a [JobNotFoundError], or anything else. *)
Inductive Thrown :=
| NotFound (err : JobNotFoundError)
| Other (description : string).

(** A create request after the validators ran: the authenticated MSP id,
    the validation errors, and the body fields the handler reads. *)
Record CreateRequest := mkCreateRequest {
  user : string;
  validationErrors : list ValidationError;
  transaction : string;
  submit : bool;
  arguments : list string;
}.

Definition problem (statusCode : StatusCodes.t) (now : string) : Response :=
  {| status := statusCode;
     json := Problem (StatusCodes.getReasonPhrase statusCode) now |}.

(** GET /: what the handler answers once [getAllJobs] has settled.  [now]
    is the time of the answer. *)
Definition answerJobs (now : string)
    (outcome : Settled Thrown (list JobSummary)) : Response :=
  match outcome with
  | Resolved allJobsSummary =>
      {| status := StatusCodes.OK; json := Summaries allJobsSummary |}
  | Rejected err => problem StatusCodes.INTERNAL_SERVER_ERROR now
  end.

(** GET /:jobId: what the handler answers once [getJob] has settled. *)
Definition answerJob (now : string) (outcome : Settled Thrown JobSummary)
    : Response :=
  match outcome with
  | Resolved jobSummary =>
      {| status := StatusCodes.OK; json := Summary jobSummary |}
  | Rejected (NotFound _) => problem StatusCodes.NOT_FOUND now
  | Rejected (Other _) => problem StatusCodes.INTERNAL_SERVER_ERROR now
  end.

(** POST /: what the handler answers once [addTransactionJob] has settled. *)
Definition answerCreated (now : string) (outcome : Settled string string)
    : Response :=
  match outcome with
  | Resolved jobId =>
      {| status := StatusCodes.ACCEPTED;
         json := Accepted (StatusCodes.getReasonPhrase StatusCodes.ACCEPTED)
                   jobId now |}
  | Rejected err => problem StatusCodes.INTERNAL_SERVER_ERROR now
  end.

(** GET / on a queue that answers. *)
Definition getAll (now : string) (mspId : string) (submitQueue : Queue)
    : Response :=
  answerJobs now (Resolved (getAllJobs mspId submitQueue)).

(** GET /:jobId on a queue that answers. *)
Definition getOne (now : string) (mspId : string) (submitQueue : Queue)
    (jobId : string) : Response :=
  answerJob now
    match getJob mspId submitQueue jobId with
    | Resolved jobSummary => Resolved jobSummary
    | Rejected err => Rejected (NotFound err)
    end.

(** POST /: a request with validation errors is refused before the queue is
    touched; otherwise a job is added for the caller's MSP id. *)
Definition post (now : string) (req : CreateRequest) (submitQueue : Queue)
    : Response * Queue :=
  match validationErrors req with
  | _ :: _ =>
      ({| status := StatusCodes.BAD_REQUEST;
          json := Invalid (StatusCodes.getReasonPhrase StatusCodes.BAD_REQUEST)
                    "VALIDATION_ERROR" "Invalid request body" now
                    (validationErrors req) |},
       submitQueue)
  | [] =>
      let '(outcome, submitQueue') :=
        addTransactionJob submitQueue (user req) (transaction req)
          (submit req) (arguments req) in
      (answerCreated now outcome, submitQueue')
  end.
End jobsRouter.

(** ** Which organisation an event concerns, which call an attempt makes *)

Section Tenants.
Context `{Collaborators}.

(** The one ledger call an attempt makes for a job whose contract is
    resolved: submit or evaluate, with the job's transaction name and
    arguments. *)
Definition theCall (cs : Contracts) (job : Job.t) : Effect :=
  if JobData.submit (Job.data job)
  then Submit (contract cs) (JobData.transactionName (Job.data job))
         (JobData.transactionArgs (Job.data job))
  else Evaluate (contract cs) (JobData.transactionName (Job.data job))
         (JobData.transactionArgs (Job.data job)).

(** An event that finishes no job and acts for another MSP id than [t], or
    on no stored job: a job enqueued by another MSP id, or a job of another
    MSP id being claimed or promoted.  Events that can finish a job are left
    out, since finishing one may evict other jobs under the retention caps,
    which count the jobs of all MSP ids. *)
Definition quietForeignEvent (t : string) (q : Queue) (ev : Event) : Prop :=
  match ev with
  | Enqueue mspId _ _ _ => mspId ≠ t
  | Claim jobId | Promote jobId =>
      JobData.mspId ∘ Job.data <$> jobs q !! jobId ≠ Some t
  | Execute _ _ | Stall _ | Purge _ => False
  end.
End Tenants.

(** ** Concrete gateway answers and settings, for running the model *)
Module Demo.
#[local] Existing Instance Sample.collaborators.

(** The gateway's errors are strings; the conversion of errors.ts is taken
    to prefix the transaction id. *)
Definition handleError (transactionId raw : string) : Error :=
  transactionId +:+ ": " +:+ raw.

(** A commit whose status reports failure. *)
Definition invalidated : fabric.Commit string :=
  fabric.mkCommit (Resolved (fabric.mkStatus false 11)).

(** A transaction that is endorsed with result "ok" and submitted. *)
Definition endorsed : fabric.Transaction string :=
  fabric.mkTransaction (String.list_byte_of_string "ok") (Resolved invalidated).

(** A network on which every proposal is endorsed and submitted, and then
    invalidated at commit; evaluations are refused. *)
Definition newProposal (contract : Contract) (transactionName : string)
    (transactionArgs : list string) : fabric.Proposal string :=
  fabric.mkProposal ("tx-" +:+ transactionName) (Rejected "no such key")
    (Resolved endorsed).

(** The first job of the sample queue as a query instead of a submit. *)
Definition queryJob : Job.t :=
  Job.withState active
    (newJob Sample.options 1 "Read transaction"
       (transactionJobData "Org1MSP" "Read" false ["alice"])).

(** A job like the claimed sample job, with a saved state, recorded ids and
    two attempts made. *)
Definition retriedJob : Job.t :=
  {| Job.id := Some "7"; Job.name := "again";
     Job.data :=
       {| JobData.mspId := "Org1MSP";
          JobData.transactionName := "Transfer";
          JobData.submit := true;
          JobData.transactionArgs := ["alice"; "bob"; "10"];
          JobData.transactionState := Some (String.list_byte_of_string "tx");
          JobData.transactionIds := ["txid1"; "txid2"] |};
     Job.opts := Sample.options; Job.attemptsMade := 2;
     Job.returnvalue := None; Job.failedReason := None;
     Job.stalledCounter := 0; Job.state := active |}.

(** The settings of two organisations. *)
Definition fabricConfig : index.FabricConfig :=
  {| index.mspIdOrg1 := "Org1MSP";
     index.mspIdOrg2 := "Org2MSP";
     index.certificateOrg1 := "ORG1CERT";
     index.certificateOrg2 := "ORG2CERT";
     index.privateKeyOrg1 := "ORG1PK";
     index.privateKeyOrg2 := "ORG2PK";
     index.tlsRootCertificateOrg1 := "ORG1TLSROOTCERT";
     index.tlsRootCertificateOrg2 := "ORG2TLSROOTCERT";
     index.peerAddressOrg1 := "localhost:7051";
     index.peerAddressOrg2 := "localhost:9051";
     index.peerAliasOrg1 := Some "peer0.org1.example.com";
     index.peerAliasOrg2 := Some "peer0.org2.example.com";
     index.channelName := "mychannel";
     index.chaincodeName := "basic" |}.

(** A ledger over gateway contracts on which every call resolves with the
    bytes of "ok". *)
Definition wiredLedger
    : @Ledger (index.collaborators Sample.classify (λ e, "Error: " +:+ e)
                 String.string_of_list_byte) :=
  mkLedger _ (λ _ _ _, Resolved (String.list_byte_of_string "ok"))
    (λ _ _ _, Resolved (String.list_byte_of_string "ok")).

(** A claimed job of the second organisation. *)
Definition org2Job : Job.t :=
  Job.withState active
    (newJob Sample.options 1 "Transfer transaction"
       (transactionJobData "Org2MSP" "Transfer" true ["carol"; "dave"; "1"])).

(** The two-job sample queue before the worker claims the second job. *)
Definition beforeSecondClaim : Queue :=
  run Sample.locals
    [Enqueue "Org1MSP" "Transfer" true ["alice"; "bob"; "10"];
     Enqueue "Org3MSP" "Transfer" true ["carol"; "dave"; "1"];
     Claim "1"]
    (initJobQueue Sample.cfg).

(** A valid create request of Org1MSP. *)
Definition createRequest : jobsRouter.CreateRequest :=
  {| jobsRouter.user := "Org1MSP";
     jobsRouter.validationErrors := [];
     jobsRouter.transaction := "Transfer";
     jobsRouter.submit := true;
     jobsRouter.arguments := ["alice"; "bob"; "10"] |}.
End Demo.

(** * Properties *)

Lemma RetryAction_eqb_eq (a b : RetryAction) :
  RetryAction.eqb a b = true ↔ a = b.
Proof. destruct a, b; simpl; split; congruence. Qed.

Lemma RetryAction_eqb_neq (a b : RetryAction) :
  RetryAction.eqb a b = false ↔ a ≠ b.
Proof. destruct a, b; simpl; split; congruence. Qed.

(** ** The worker function *)

Section WorkerFacts.
Context `{Collaborators}.
Implicit Types (locals : Locals) (ledger : Ledger) (job : Job.t) (q : Queue).

(** How the promise of [processTransactionJob] settles, case by case. *)
Lemma processTransactionJob_settled locals ledger job :
  settled (processTransactionJob locals ledger job) =
  match locals !! JobData.mspId (Job.data job) with
  | None =>
      Resolved {| JobResult.transactionPayload := None;
                  JobResult.transactionError := None |}
  | Some cs =>
      match ledgerReply ledger (contract cs) job with
      | Resolved bytes =>
          Resolved {| JobResult.transactionPayload := Some (utf8Decode bytes);
                      JobResult.transactionError := None |}
      | Rejected e =>
          if RetryAction.eqb (getRetryAction e) RetryAction.None
          then Resolved {| JobResult.transactionPayload := None;
                           JobResult.transactionError := Some (errorText e) |}
          else Rejected e
      end
  end.
Proof.
  unfold processTransactionJob, ledgerReply.
  destruct (locals !! JobData.mspId (Job.data job)) as [cs|]; [|reflexivity].
  cbn [fmap option_fmap option_map].
  destruct (invoke ledger (contract cs) job) as [tr [bytes|e]] eqn:Hinv;
    destruct (JobData.transactionState (Job.data job));
    cbn; try reflexivity;
    destruct (getRetryAction e); reflexivity.
Qed.

(** Without a contract the ledger is not called. *)
Lemma processTransactionJob_no_contract_calls locals ledger job :
  locals !! JobData.mspId (Job.data job) = None →
  ledgerCalls (processTransactionJob locals ledger job) = [].
Proof.
  intros Hnone. unfold processTransactionJob. rewrite Hnone. reflexivity.
Qed.

(** No transition of an existing job touches its data. *)
Lemma settle_data outcome job : Job.data (settle outcome job) = Job.data job.
Proof.
  unfold settle, moveToCompleted, moveToFailed.
  destruct outcome; [|case_match]; reflexivity.
Qed.

Lemma attempt_data locals ledger job :
  Job.data (attempt locals ledger job) = Job.data job.
Proof. unfold attempt. case_decide; [apply settle_data | reflexivity]. Qed.

Lemma claim_data job : Job.data (claim job) = Job.data job.
Proof. unfold claim. case_decide; reflexivity. Qed.

Lemma promote_data job : Job.data (promote job) = Job.data job.
Proof. unfold promote. case_decide; reflexivity. Qed.

Lemma stall_data job : Job.data (stall job) = Job.data job.
Proof. unfold stall. case_decide; reflexivity. Qed.

(** A finished job is left alone by every transition. *)
Lemma isTerminal_state job :
  isTerminal job = true ↔ Job.state job = completed ∨ Job.state job = failed.
Proof.
  unfold isTerminal, isCompleted, isFailed.
  rewrite orb_true_iff, !bool_decide_eq_true. tauto.
Qed.

Lemma terminal_attempt locals ledger job :
  isTerminal job = true → attempt locals ledger job = job.
Proof.
  rewrite isTerminal_state. unfold attempt. case_decide; [|done].
  intros [?|?]; congruence.
Qed.

Lemma terminal_claim job : isTerminal job = true → claim job = job.
Proof.
  rewrite isTerminal_state. unfold claim. case_decide; [|done].
  intros [?|?]; congruence.
Qed.

Lemma terminal_promote job : isTerminal job = true → promote job = job.
Proof.
  rewrite isTerminal_state. unfold promote. case_decide; [|done].
  intros [?|?]; congruence.
Qed.

Lemma terminal_stall job : isTerminal job = true → stall job = job.
Proof.
  rewrite isTerminal_state. unfold stall. case_decide; [|done].
  intros [?|?]; congruence.
Qed.
End WorkerFacts.

(** ** The queue under events *)

Section QueueFacts.
Context `{Collaborators}.
Implicit Types (locals : Locals) (ledger : Ledger) (job : Job.t) (q : Queue).

Lemma run_cons locals ev evs q :
  run locals (ev :: evs) q = run locals evs (step locals ev q).
Proof. reflexivity. Qed.


Lemma lookup_updateJob f jobId q k :
  jobs (updateJob f jobId q) !! k =
  if decide (jobId = k) then f <$> jobs q !! k else jobs q !! k.
Proof.
  unfold updateJob; simpl. rewrite lookup_alter.
  case_decide; by simplify_eq.
Qed.

Lemma lookup_execute locals ledger jobId q job :
  jobs q !! jobId = Some job →
  jobs (step locals (Execute jobId ledger) q) !! jobId =
    Some (attempt locals ledger job).
Proof.
  intros Hjob. cbn [step]. rewrite lookup_updateJob, decide_True by done.
  by rewrite Hjob.
Qed.

Lemma step_options locals ev q :
  defaultJobOptions (step locals ev q) = defaultJobOptions q.
Proof.
  destruct ev; cbn [step]; try reflexivity.
  unfold purge. repeat case_match; reflexivity.
Qed.

Lemma run_options locals evs q :
  defaultJobOptions (run locals evs q) = defaultJobOptions q.
Proof.
  revert q. induction evs as [|ev evs IH]; intros q; [reflexivity|].
  rewrite run_cons, IH. apply step_options.
Qed.

Lemma step_counter locals ev q :
  (idCounter q ≤ idCounter (step locals ev q))%N.
Proof.
  destruct ev; cbn [step]; try (simpl; lia).
  unfold purge. repeat case_match; simpl; lia.
Qed.

(** Ids drawn from the counter stay so. *)
Lemma step_issued locals ev q jobId :
  issued q jobId → issued (step locals ev q) jobId.
Proof.
  intros (n & Hn & ->). exists n. split; [|done].
  pose proof (step_counter locals ev q). lia.
Qed.

(** *** Invariants of the stored jobs

    A property of jobs that holds of every job [addTransactionJob] creates
    and is kept by each transition holds of every stored job after any
    sequence of events. *)
Section Invariant.
Variables (locals : Locals) (o : JobOptions) (P : Job.t → Prop).
Hypothesis P_new : ∀ n mspId transactionName submit transactionArgs,
  P (newJob o n (transactionName +:+ " transaction")
       (transactionJobData mspId transactionName submit transactionArgs)).
Hypothesis P_claim : ∀ job, P job → P (claim job).
Hypothesis P_promote : ∀ job, P job → P (promote job).
Hypothesis P_stall : ∀ job, P job → P (stall job).
Hypothesis P_attempt : ∀ ledger job, P job → P (attempt locals ledger job).

Lemma updateJob_invariant f jobId q :
  (∀ job, P job → P (f job)) →
  map_Forall (λ _, P) (jobs q) →
  map_Forall (λ _, P) (jobs (updateJob f jobId q)).
Proof.
  intros Hf Hq k job'. rewrite lookup_updateJob.
  case_decide as Hk; [|by apply Hq].
  destruct (jobs q !! k) as [job|] eqn:Hjob; [|done].
  intros [= <-]. eapply Hf, Hq, Hjob.
Qed.

Lemma step_invariant ev q :
  defaultJobOptions q = o →
  map_Forall (λ _, P) (jobs q) →
  map_Forall (λ _, P) (jobs (step locals ev q)).
Proof.
  intros Ho Hq. destruct ev; cbn [step];
    try (apply updateJob_invariant; by eauto).
  - simpl. apply map_Forall_insert_2; [|done]. rewrite Ho. apply P_new.
  - unfold purge. repeat case_match; try done.
    simpl. by apply map_Forall_delete.
Qed.

Lemma run_invariant evs q :
  defaultJobOptions q = o →
  map_Forall (λ _, P) (jobs q) →
  map_Forall (λ _, P) (jobs (run locals evs q)).
Proof.
  revert q. induction evs as [|ev evs IH]; intros q Ho Hq; [done|].
  rewrite run_cons. apply IH; [by rewrite step_options | by apply step_invariant].
Qed.
End Invariant.


(** Every id stored in a queue started by [initJobQueue] was drawn from its
    counter. *)
Lemma run_ids_issued locals cfg evs jobId :
  is_Some (jobs (run locals evs (initJobQueue cfg)) !! jobId) →
  issued (run locals evs (initJobQueue cfg)) jobId.
Proof.
  assert (Hgen : ∀ evs q,
    (∀ k, is_Some (jobs q !! k) → issued q k) →
    ∀ k, is_Some (jobs (run locals evs q) !! k) → issued (run locals evs q) k).
  { clear. intros evs. induction evs as [|ev evs IH]; intros q Hq k; [by apply Hq|].
    rewrite run_cons. apply IH. clear k IH. intros k.
    destruct ev as [m tn sb ar|i|i l|i|i|i]; cbn [step].
    - simpl. destruct (decide (pretty (idCounter q + 1)%N = k)) as [<-|Hne].
      + intros _. exists (idCounter q + 1)%N. by split.
      + rewrite lookup_insert_ne by done. intros Hk.
        destruct (Hq k Hk) as (n & Hn & ->). exists n; split; [simpl; lia|done].
    - rewrite lookup_updateJob. intros Hk. change (issued q k). apply Hq.
      case_decide; [by apply fmap_is_Some in Hk | done].
    - rewrite lookup_updateJob. intros Hk. change (issued q k). apply Hq.
      case_decide; [by apply fmap_is_Some in Hk | done].
    - rewrite lookup_updateJob. intros Hk. change (issued q k). apply Hq.
      case_decide; [by apply fmap_is_Some in Hk | done].
    - rewrite lookup_updateJob. intros Hk. change (issued q k). apply Hq.
      case_decide; [by apply fmap_is_Some in Hk | done].
    - intros Hk. apply (step_issued locals (Purge i) q), Hq.
      unfold purge in Hk. repeat case_match; try done.
      simpl in Hk. destruct (decide (i = k)) as [->|Hne].
      + rewrite lookup_delete_eq in Hk. by destruct Hk.
      + by rewrite lookup_delete_ne in Hk. }
  apply Hgen. intros k. simpl. rewrite lookup_empty. by intros [? ?].
Qed.

(** *** A finished job is never run again

    Once a job is completed or failed, whatever happens to the queue
    afterwards leaves it exactly as it is, until it is purged. *)
Lemma terminal_job_stays locals evs q jobId job :
  issued q jobId →
  isTerminal job = true →
  jobs q !! jobId = Some job ∨ jobs q !! jobId = None →
  jobs (run locals evs q) !! jobId = Some job ∨
  jobs (run locals evs q) !! jobId = None.
Proof.
  intros Hid Hterm. revert q Hid.
  induction evs as [|ev evs IH]; intros q Hid Hq; [done|].
  rewrite run_cons. apply IH; [by apply step_issued|].
  destruct ev as [m tn sb ar|i|i l|i|i|i]; cbn [step].
  - simpl. destruct Hid as (n & Hn & ->).
    rewrite lookup_insert_ne; [done|].
    intros Heq. apply (inj pretty) in Heq. lia.
  - rewrite lookup_updateJob. case_decide; [|done].
    destruct Hq as [->| ->]; simpl; [left|by right].
    by rewrite terminal_claim.
  - rewrite lookup_updateJob. case_decide; [|done].
    destruct Hq as [->| ->]; simpl; [left|by right].
    by rewrite terminal_attempt.
  - rewrite lookup_updateJob. case_decide; [|done].
    destruct Hq as [->| ->]; simpl; [left|by right].
    by rewrite terminal_promote.
  - rewrite lookup_updateJob. case_decide; [|done].
    destruct Hq as [->| ->]; simpl; [left|by right].
    by rewrite terminal_stall.
  - unfold purge. repeat case_match; try done. simpl.
    destruct (decide (i = jobId)) as [->|Hne].
    + right. apply lookup_delete_eq.
    + by rewrite lookup_delete_ne.
Qed.

(** An attempt whose worker function returns finishes the job with the
    returned value, and the job is never run again. *)
Lemma execute_returned locals cfg evs0 jobId ledger job r :
  jobs (run locals evs0 (initJobQueue cfg)) !! jobId = Some job →
  Job.state job = active →
  settled (processTransactionJob locals ledger job) = Resolved r →
  ∃ job',
    jobs (step locals (Execute jobId ledger)
            (run locals evs0 (initJobQueue cfg))) !! jobId = Some job' ∧
    Job.state job' = completed ∧
    Job.attemptsMade job' = Job.attemptsMade job + 1 ∧
    Job.returnvalue job' = Some r ∧
    ∀ evs,
      let q := run locals evs (step locals (Execute jobId ledger)
                                 (run locals evs0 (initJobQueue cfg))) in
      jobs q !! jobId = Some job' ∨ jobs q !! jobId = None.
Proof.
  intros Hjob Hactive Hret.
  exists (attempt locals ledger job).
  assert (Hjob' := lookup_execute locals ledger _ _ _ Hjob).
  assert (Hatt : attempt locals ledger job = settle (Resolved r) job).
  { unfold attempt. rewrite decide_True by done. by rewrite Hret. }
  split; [done|]. rewrite Hatt. repeat split.
  intros evs q. subst q. rewrite <- Hatt.
  apply terminal_job_stays; [| |by left].
  - apply step_issued, run_ids_issued. by rewrite Hjob.
  - by rewrite Hatt.
Qed.
End QueueFacts.

(** ** Failure handling of the worker function *)

Section FailureHandling.
Context `{Collaborators}.
Implicit Types (locals : Locals) (ledger : Ledger) (job : Job.t) (q : Queue).

(** C1, as amended.  When the attempt of an active job fails with an error
    the classifier maps to [RetryAction.None], the worker function returns
    (it does not throw) a result whose [transactionError] is the error text
    and whose [transactionPayload] is absent.  The job is therefore
    finished after exactly that attempt, in state [completed], and whatever
    happens to the queue afterwards it is never run again, however many
    attempts remain. *)
Theorem permanent_error_finishes_job locals cfg evs0 jobId ledger job cs e :
  jobs (run locals evs0 (initJobQueue cfg)) !! jobId = Some job →
  Job.state job = active →
  locals !! JobData.mspId (Job.data job) = Some cs →
  ledgerReply ledger (contract cs) job = Rejected e →
  getRetryAction e = RetryAction.None →
  ∃ job',
    jobs (step locals (Execute jobId ledger)
            (run locals evs0 (initJobQueue cfg))) !! jobId = Some job' ∧
    Job.state job' = completed ∧
    Job.attemptsMade job' = Job.attemptsMade job + 1 ∧
    Job.returnvalue job' =
      Some {| JobResult.transactionPayload := None;
              JobResult.transactionError := Some (errorText e) |} ∧
    ∀ evs,
      let q := run locals evs (step locals (Execute jobId ledger)
                                 (run locals evs0 (initJobQueue cfg))) in
      jobs q !! jobId = Some job' ∨ jobs q !! jobId = None.
Proof.
  intros Hjob Hactive Hcs Hreply Hnone.
  apply execute_returned; [done..|].
  rewrite processTransactionJob_settled, Hcs, Hreply, Hnone. reflexivity.
Qed.


(** C5.  When the attempt of an active job fails with an error the
    classifier does not map to [RetryAction.None], the worker function
    re-throws that error; the queue then re-schedules the job (state
    [delayed]) while attempts remain and fails it once they are exhausted,
    and the job's data, its saved transaction state included, is the same
    after the failed attempt. *)
Theorem retryable_error_is_rethrown locals ledger jobId q job cs e :
  jobs q !! jobId = Some job →
  Job.state job = active →
  locals !! JobData.mspId (Job.data job) = Some cs →
  ledgerReply ledger (contract cs) job = Rejected e →
  getRetryAction e ≠ RetryAction.None →
  settled (processTransactionJob locals ledger job) = Rejected e ∧
  ∃ job',
    jobs (step locals (Execute jobId ledger) q) !! jobId = Some job' ∧
    (Job.attemptsMade job + 1 < attempts (Job.opts job) →
     Job.state job' = delayed) ∧
    (attempts (Job.opts job) ≤ Job.attemptsMade job + 1 →
     Job.state job' = failed) ∧
    Job.attemptsMade job' = Job.attemptsMade job + 1 ∧
    Job.returnvalue job' = Job.returnvalue job ∧
    JobData.transactionState (Job.data job') =
      JobData.transactionState (Job.data job) ∧
    Job.data job' = Job.data job.
Proof.
  intros Hjob Hactive Hcs Hreply Hretry.
  assert (Hthrow : settled (processTransactionJob locals ledger job) = Rejected e).
  { rewrite processTransactionJob_settled, Hcs, Hreply.
    apply RetryAction_eqb_neq in Hretry. by rewrite Hretry. }
  split; [done|].
  exists (attempt locals ledger job). split; [by apply lookup_execute|].
  rewrite attempt_data. unfold attempt. rewrite decide_True, Hthrow by done.
  unfold settle, moveToFailed.
  destruct (Job.attemptsMade job + 1 <? attempts (Job.opts job)) eqn:Hlt;
    repeat split; try done.
  - intros ?. apply Z.ltb_lt in Hlt. lia.
  - intros ?. apply Z.ltb_ge in Hlt. lia.
Qed.

(** C6.  When the MSP id of an active job has no contract in [app.locals],
    the worker function returns the empty result (neither payload nor
    error) without calling the ledger; the job is finished on that attempt
    and is never run again. *)
Theorem missing_contract_gives_up locals cfg evs0 jobId ledger job :
  jobs (run locals evs0 (initJobQueue cfg)) !! jobId = Some job →
  Job.state job = active →
  locals !! JobData.mspId (Job.data job) = None →
  settled (processTransactionJob locals ledger job) =
    Resolved {| JobResult.transactionPayload := None;
                JobResult.transactionError := None |} ∧
  ledgerCalls (processTransactionJob locals ledger job) = [] ∧
  ∃ job',
    jobs (step locals (Execute jobId ledger)
            (run locals evs0 (initJobQueue cfg))) !! jobId = Some job' ∧
    Job.state job' = completed ∧
    Job.attemptsMade job' = Job.attemptsMade job + 1 ∧
    Job.returnvalue job' =
      Some {| JobResult.transactionPayload := None;
              JobResult.transactionError := None |} ∧
    ∀ evs,
      let q := run locals evs (step locals (Execute jobId ledger)
                                 (run locals evs0 (initJobQueue cfg))) in
      jobs q !! jobId = Some job' ∨ jobs q !! jobId = None.
Proof.
  intros Hjob Hactive Hnone.
  assert (Hret : settled (processTransactionJob locals ledger job) =
    Resolved {| JobResult.transactionPayload := None;
                JobResult.transactionError := None |}).
  { by rewrite processTransactionJob_settled, Hnone. }
  split; [done|]. split; [by apply processTransactionJob_no_contract_calls|].
  by apply execute_returned.
Qed.
End FailureHandling.

(** ** Invariants of the job life cycle *)

Section LifeCycle.
Context `{Collaborators}.
Implicit Types (locals : Locals) (ledger : Ledger) (job : Job.t) (q : Queue).

Lemma resultShape_pending locals job job' :
  isTerminal job' = false →
  Job.returnvalue job' = Job.returnvalue job →
  isTerminal job = false →
  resultShape locals job = true →
  resultShape locals job' = true.
Proof.
  unfold resultShape, isTerminal, isCompleted, isFailed, noResult.
  intros Hpend' Hrv Hpend. rewrite Hrv.
  destruct (Job.state job), (Job.state job'); simpl in *; done.
Qed.

Lemma resultShape_attempt locals ledger job :
  resultShape locals job = true →
  resultShape locals (attempt locals ledger job) = true.
Proof.
  unfold attempt. case_decide as Hactive; [|done].
  intros Hshape.
  assert (Hnone : Job.returnvalue job = None).
  { unfold resultShape, noResult in Hshape. rewrite Hactive in Hshape.
    by destruct (Job.returnvalue job). }
  rewrite processTransactionJob_settled.
  unfold resultShape, settle, moveToCompleted, moveToFailed, noResult.
  destruct (locals !! JobData.mspId (Job.data job)) as [cs|] eqn:Hcs.
  - destruct (ledgerReply ledger (contract cs) job) as [bytes|e].
    + simpl. rewrite Hcs. by rewrite decide_True by eauto.
    + destruct (RetryAction.eqb (getRetryAction e) RetryAction.None).
      * simpl. rewrite Hcs. by rewrite decide_True by eauto.
      * destruct (Job.attemptsMade job + 1 <? attempts (Job.opts job));
          simpl; by rewrite Hnone.
  - simpl. rewrite Hcs. rewrite decide_False; [done|]. by intros [? ?].
Qed.

(** C3, as amended.  After any sequence of events on a queue started by
    [initJobQueue], every stored job has a result of the shape its state
    calls for: a completed job whose MSP id has a contract has exactly one
    of [transactionPayload] and [transactionError] set; a completed job
    whose MSP id has no contract has both absent; a failed job (its
    attempts exhausted) and a pending job have no result at all. *)
Theorem result_follows_state locals cfg evs :
  map_Forall (λ _ job, resultShape locals job = true)
    (jobs (run locals evs (initJobQueue cfg))).
Proof.
  apply (run_invariant locals (defaultJobOptions (initJobQueue cfg)));
    [..|done|apply map_Forall_empty].
  - done.
  - intros job Hshape. unfold claim. case_decide as Hst; [|done].
    apply (resultShape_pending locals job); try done;
      unfold isTerminal, isCompleted, isFailed; by rewrite ?Hst.
  - intros job Hshape. unfold promote. case_decide as Hst; [|done].
    apply (resultShape_pending locals job); try done;
      unfold isTerminal, isCompleted, isFailed; by rewrite ?Hst.
  - intros job Hshape. unfold stall. case_decide as Hst; [|done].
    apply (resultShape_pending locals job); try done;
      unfold isTerminal, isCompleted, isFailed; by rewrite ?Hst.
  - intros ledger job. apply resultShape_attempt.
Qed.




(** C10.  After any sequence of events on a queue started by
    [initJobQueue], every stored job has an empty [transactionIds] and no
    [transactionState]; and each transition of an existing job (being
    claimed, executed by the worker function, promoted, or un-stalled)
    leaves its data untouched. *)
Theorem job_data_is_never_updated locals cfg evs :
  map_Forall (λ _ job, pristine (Job.data job))
    (jobs (run locals evs (initJobQueue cfg))) ∧
  ∀ ledger job,
    Job.data (attempt locals ledger job) = Job.data job ∧
    Job.data (claim job) = Job.data job ∧
    Job.data (promote job) = Job.data job ∧
    Job.data (stall job) = Job.data job.
Proof.
  split.
  - apply (run_invariant locals (defaultJobOptions (initJobQueue cfg)));
      [..|done|apply map_Forall_empty].
    + by intros.
    + intros job. by rewrite claim_data.
    + intros job. by rewrite promote_data.
    + intros job. by rewrite stall_data.
    + intros ledger job. by rewrite attempt_data.
  - intros ledger job.
    by rewrite attempt_data, claim_data, promote_data, stall_data.
Qed.
End LifeCycle.

(** ** The read model *)

Section ReadModel.
Implicit Types (job : Job.t) (q : Queue).

Lemma getJob_other_msp mspId q jobId job :
  Queue_getJob q jobId = Some job →
  JobData.mspId (Job.data job) ≠ mspId →
  getJob mspId q jobId = Rejected (jobNotFound jobId).
Proof.
  intros Hjob Hne. unfold getJob. rewrite Hjob.
  destruct (Job.id job); [|done].
  apply String.eqb_neq in Hne. by rewrite Hne.
Qed.

Lemma getAllJobs_elem mspId q s :
  s ∈ getAllJobs mspId q →
  ∃ jobId job,
    jobs q !! jobId = Some job ∧
    JobData.mspId (Job.data job) = mspId ∧
    s = getJobSummary job.
Proof.
  unfold getAllJobs, Queue_getJobs.
  intros (job & -> & Hin)%list_elem_of_fmap.
  apply list_elem_of_filter in Hin as [Hmsp Hin].
  apply list_elem_of_filter in Hin as [_ Hin].
  apply list_elem_of_fmap in Hin as ([jobId job'] & -> & Hin).
  apply elem_of_map_to_list in Hin.
  exists jobId, job'. split; [done|]. split; [|done].
  by apply String.eqb_eq.
Qed.

(** C4.  For a caller with MSP id [t]: whenever the job id is absent from
    the queue or names a job whose [data.mspId] is not [t], [getJob] throws
    the [JobNotFoundError] built from the job id alone, the same in both
    cases, so the caller cannot tell them apart; and every summary
    [getAllJobs] returns is the summary of a stored job whose [data.mspId]
    is [t]. *)
Theorem reads_are_scoped_to_the_caller (t : string) q jobId :
  Queue_getJob q jobId = None ∨
  (∃ job, Queue_getJob q jobId = Some job ∧
          JobData.mspId (Job.data job) ≠ t) →
  getJob t q jobId = Rejected (jobNotFound jobId) ∧
  Forall (λ s, ∃ i job',
            jobs q !! i = Some job' ∧
            JobData.mspId (Job.data job') = t ∧
            s = getJobSummary job')
         (getAllJobs t q).
Proof.
  intros Hhidden. split.
  - destruct Hhidden as [Habsent|(job & Hjob & Hother)].
    + unfold getJob. by rewrite Habsent.
    + by apply (getJob_other_msp t q jobId job).
  - apply Forall_forall. intros s. apply getAllJobs_elem.
Qed.

(** C8.  The summary [getJobSummary] builds carries the job's state name,
    and carries a [result] property, holding the job's [returnvalue],
    exactly when the job is completed or failed; [getJob] answers with
    that summary, and [getAllJobs] with those summaries. *)
Theorem summary_has_state_and_result job :
  JobSummary.state (getJobSummary job) = getState job ∧
  (is_Some (JobSummary.result (getJobSummary job)) ↔
     Job.state job = completed ∨ Job.state job = failed) ∧
  (∀ r, JobSummary.result (getJobSummary job) = Some r →
        r = Job.returnvalue job) ∧
  (∀ t q jobId s, getJob t q jobId = Resolved s →
     ∃ job', Queue_getJob q jobId = Some job' ∧ s = getJobSummary job') ∧
  (∀ t q, Forall (λ s, ∃ job', s = getJobSummary job') (getAllJobs t q)).
Proof.
  split; [reflexivity|]. split; [|split; [|split]].
  - unfold getJobSummary, isCompleted, isFailed; simpl.
    destruct (Job.state job); simpl; split;
      try (intros [? ?]; done); try (intros [?|?]; done); eauto.
  - unfold getJobSummary; simpl. intros r.
    destruct (isCompleted job || isFailed job); congruence.
  - intros t q jobId s. unfold getJob.
    destruct (Queue_getJob q jobId) as [job'|]; [|done].
    destruct (Job.id job'); [|done].
    destruct (negb _); [done|]. intros [= <-]. eauto.
  - intros t q. apply Forall_forall. intros s Hs.
    apply getAllJobs_elem in Hs as (? & job' & _ & _ & ->). eauto.
Qed.
End ReadModel.

(** ** Configuration defaults and their wiring *)

(** C9.  The settings have the stated defaults and are wired into the
    queue and the worker.  When none of the job queue's environment
    variables is set, [main] sets up the queue with attempt limit 5,
    backoff type fixed with base delay 3000 and retention caps of 1000 for
    completed and for failed jobs, the worker with concurrency 5, and the
    scheduler.  And whatever the environment, when the configuration loads,
    each option [main] sets is the value of its own variable (or that
    variable's default): the attempt limit, the backoff type and delay, the
    cap of completed jobs, the cap of failed jobs, the worker's concurrency,
    and whether the scheduler is set up. *)
Theorem defaults_are_wired (env : config.Env) :
  (Forall (λ variable, env !! variable = None) config.queueVariables →
   ∃ cfg,
     config.load env = inr cfg ∧
     attempts (defaultJobOptions (jobQueue (main cfg))) = 5 ∧
     backoffType (defaultJobOptions (jobQueue (main cfg))) = config.fixed ∧
     backoffDelay (defaultJobOptions (jobQueue (main cfg))) = 3000 ∧
     removeOnComplete (defaultJobOptions (jobQueue (main cfg))) = 1000 ∧
     removeOnFail (defaultJobOptions (jobQueue (main cfg))) = 1000 ∧
     concurrency (jobQueueWorker (main cfg)) = 5 ∧
     jobQueueScheduler (main cfg) = Some initJobQueueScheduler) ∧
  (∀ cfg,
     config.load env = inr cfg →
     config.asInt "SUBMIT_JOB_ATTEMPTS"
       (config.get env "SUBMIT_JOB_ATTEMPTS" "5") =
       inr (attempts (defaultJobOptions (jobQueue (main cfg)))) ∧
     config.asBackoffType "SUBMIT_JOB_BACKOFF_TYPE"
       (config.get env "SUBMIT_JOB_BACKOFF_TYPE" "fixed") =
       inr (backoffType (defaultJobOptions (jobQueue (main cfg)))) ∧
     config.asInt "SUBMIT_JOB_BACKOFF_DELAY"
       (config.get env "SUBMIT_JOB_BACKOFF_DELAY" "3000") =
       inr (backoffDelay (defaultJobOptions (jobQueue (main cfg)))) ∧
     config.asInt "MAX_COMPLETED_SUBMIT_JOBS"
       (config.get env "MAX_COMPLETED_SUBMIT_JOBS" "1000") =
       inr (removeOnComplete (defaultJobOptions (jobQueue (main cfg)))) ∧
     config.asInt "MAX_FAILED_SUBMIT_JOBS"
       (config.get env "MAX_FAILED_SUBMIT_JOBS" "1000") =
       inr (removeOnFail (defaultJobOptions (jobQueue (main cfg)))) ∧
     config.asInt "SUBMIT_JOB_CONCURRENCY"
       (config.get env "SUBMIT_JOB_CONCURRENCY" "5") =
       inr (concurrency (jobQueueWorker (main cfg))) ∧
     config.asBoolStrict "SUBMIT_JOB_QUEUE_SCHEDULER"
       (config.get env "SUBMIT_JOB_QUEUE_SCHEDULER" "true") =
       inr (bool_decide (is_Some (jobQueueScheduler (main cfg)))) ∧
     (jobQueueScheduler (main cfg) = None ∨
      jobQueueScheduler (main cfg) = Some initJobQueueScheduler)) ∧
  (∀ cfg,
     attempts (defaultJobOptions (jobQueue (main cfg))) =
       config.submitJobAttempts cfg ∧
     backoffType (defaultJobOptions (jobQueue (main cfg))) =
       config.submitJobBackoffType cfg ∧
     backoffDelay (defaultJobOptions (jobQueue (main cfg))) =
       config.submitJobBackoffDelay cfg ∧
     removeOnComplete (defaultJobOptions (jobQueue (main cfg))) =
       config.maxCompletedSubmitJobs cfg ∧
     removeOnFail (defaultJobOptions (jobQueue (main cfg))) =
       config.maxFailedSubmitJobs cfg ∧
     concurrency (jobQueueWorker (main cfg)) =
       config.submitJobConcurrency cfg ∧
     (is_Some (jobQueueScheduler (main cfg)) ↔
      config.submitJobQueueScheduler cfg = true)).
Proof.
  split; [|split].
  - unfold config.queueVariables. rewrite !Forall_cons.
    intros (Htype & Hdelay & Hattempts & Hconc & Hcompleted & Hfailed
            & Hsched & _).
    eexists. split.
    + unfold config.load, config.get.
      rewrite Htype, Hdelay, Hattempts, Hconc, Hcompleted, Hfailed, Hsched.
      reflexivity.
    + repeat split.
  - intros cfg. unfold config.load.
    destruct (config.asBackoffType _ _) as [?|backoff]; [done|].
    destruct (config.asInt "SUBMIT_JOB_BACKOFF_DELAY" _) as [?|delay]; [done|].
    destruct (config.asInt "SUBMIT_JOB_ATTEMPTS" _) as [?|limit]; [done|].
    destruct (config.asInt "SUBMIT_JOB_CONCURRENCY" _) as [?|conc]; [done|].
    destruct (config.asInt "MAX_COMPLETED_SUBMIT_JOBS" _) as [?|maxc]; [done|].
    destruct (config.asInt "MAX_FAILED_SUBMIT_JOBS" _) as [?|maxf]; [done|].
    destruct (config.asBoolStrict _ _) as [?|sched]; [done|].
    intros [= <-]. simpl.
    repeat (split; [reflexivity|]).
    destruct sched; simpl; split; auto.
  - intros cfg. repeat (split; [reflexivity|]).
    unfold main; simpl.
    destruct (config.submitJobQueueScheduler cfg); simpl; split;
      first [done | by eauto | by intros [? ?]].
Qed.

(** ** The properties on concrete runs *)

Section ConcreteRuns.
#[local] Existing Instance Sample.collaborators.

(** A job that fails twice with a transient error and then succeeds is
    completed after three attempts, with the decoded payload. *)
Example transient_errors_then_success :
  let q := run Sample.locals
             [Execute "1" (Sample.failing "timeout"); Promote "1"; Claim "1";
              Execute "1" (Sample.failing "timeout"); Promote "1"; Claim "1";
              Execute "1" Sample.succeeding]
             Sample.oneJob in
  getJob "Org1MSP" q "1" =
    Resolved {| JobSummary.jobId := "1";
                JobSummary.name := "Transfer transaction";
                JobSummary.state := "completed";
                JobSummary.attempts := 3;
                JobSummary.transactionIds := [];
                JobSummary.result :=
                  Some (Some {| JobResult.transactionPayload := Some "ok";
                                JobResult.transactionError := None |}) |}.
Proof. vm_compute. reflexivity. Qed.

(** A job that fails with a transient error on every attempt is failed once
    its five attempts are used up, and has no result. *)
Example transient_errors_exhaust_attempts :
  let retry := [Execute "1" (Sample.failing "timeout"); Promote "1"; Claim "1"] in
  let q := run Sample.locals (retry ++ retry ++ retry ++ retry ++ retry)
             Sample.oneJob in
  getJob "Org1MSP" q "1" =
    Resolved {| JobSummary.jobId := "1";
                JobSummary.name := "Transfer transaction";
                JobSummary.state := "failed";
                JobSummary.attempts := 5;
                JobSummary.transactionIds := [];
                JobSummary.result := Some None |}.
Proof. vm_compute. reflexivity. Qed.

(** C1, as stated, fails: the job whose only attempt failed with an error
    the classifier maps to [RetryAction.None] ends up [completed], not
    [failed], after that one attempt, with the error text in its result. *)
Lemma permanent_error_job_is_not_failed :
  getRetryAction ("bad" : Error) = RetryAction.None ∧
  Job.state <$> jobs Sample.afterPermanentError !! "1" = Some completed ∧
  Job.state <$> jobs Sample.afterPermanentError !! "1" ≠ Some failed ∧
  Job.attemptsMade <$> jobs Sample.afterPermanentError !! "1" = Some 1 ∧
  Job.returnvalue <$> jobs Sample.afterPermanentError !! "1" =
    Some (Some {| JobResult.transactionPayload := None;
                  JobResult.transactionError := Some "Error: bad" |}).
Proof. vm_compute. repeat split; congruence. Qed.

(** The amended C1 on the one-job queue. *)
Lemma permanent_error_finishes_job_witness :
  ∃ job',
    jobs Sample.afterPermanentError !! "1" = Some job' ∧
    Job.state job' = completed ∧
    Job.attemptsMade job' = Job.attemptsMade Sample.org1Job + 1 ∧
    Job.returnvalue job' =
      Some {| JobResult.transactionPayload := None;
              JobResult.transactionError := Some "Error: bad" |} ∧
    ∀ evs,
      let q := run Sample.locals evs Sample.afterPermanentError in
      jobs q !! "1" = Some job' ∨ jobs q !! "1" = None.
Proof.
  eapply (@permanent_error_finishes_job Sample.collaborators Sample.locals Sample.cfg
            [Enqueue "Org1MSP" "Transfer" true ["alice"; "bob"; "10"];
             Claim "1"]
            "1" (Sample.failing "bad") Sample.org1Job
            Sample.org1Contracts "bad");
    vm_compute; reflexivity.
Defined.


(** The same job once it has been claimed again: active, one attempt made,
    no saved state. *)
Example conflict_then_next_attempt :
  Job.state <$> jobs Sample.conflictRetry !! "1" = Some active ∧
  Job.attemptsMade <$> jobs Sample.conflictRetry !! "1" = Some 1 ∧
  JobData.transactionState ∘ Job.data <$> jobs Sample.conflictRetry !! "1" =
    Some None.
Proof. vm_compute. repeat split. Qed.

(** C3, as stated, fails: the job of an organisation without a contract is
    completed with a result in which neither field is set. *)
Lemma completed_job_with_empty_result :
  Job.state <$> jobs Sample.afterMissingContract !! "2" = Some completed ∧
  Job.returnvalue <$> jobs Sample.afterMissingContract !! "2" =
    Some (Some {| JobResult.transactionPayload := None;
                  JobResult.transactionError := None |}) ∧
  JobResult.exactlyOne
    {| JobResult.transactionPayload := None;
       JobResult.transactionError := None |} = false.
Proof. vm_compute. repeat split. Qed.

(** C4 for Org1MSP asking for the job of Org3MSP. *)
Lemma reads_are_scoped_to_the_caller_witness :
  getJob "Org1MSP" Sample.twoJobs "2" = Rejected (jobNotFound "2") ∧
  Forall (λ s, ∃ i job',
            jobs Sample.twoJobs !! i = Some job' ∧
            JobData.mspId (Job.data job') = "Org1MSP" ∧
            s = getJobSummary job')
         (getAllJobs "Org1MSP" Sample.twoJobs).
Proof.
  apply (reads_are_scoped_to_the_caller "Org1MSP" Sample.twoJobs "2").
  right. exists Sample.org3Job. split; [vm_compute; reflexivity|].
  vm_compute. congruence.
Defined.

(** C5 on a timeout, which the sample classifier retries with the existing
    transaction id. *)
Lemma retryable_error_is_rethrown_witness :
  settled (processTransactionJob Sample.locals (Sample.failing "timeout")
             Sample.org1Job) = Rejected ("timeout" : Error) ∧
  ∃ job',
    jobs (step Sample.locals (Execute "1" (Sample.failing "timeout"))
            Sample.oneJob) !! "1" = Some job' ∧
    (Job.attemptsMade Sample.org1Job + 1
       < attempts (Job.opts Sample.org1Job) →
     Job.state job' = delayed) ∧
    (attempts (Job.opts Sample.org1Job)
       ≤ Job.attemptsMade Sample.org1Job + 1 →
     Job.state job' = failed) ∧
    Job.attemptsMade job' = Job.attemptsMade Sample.org1Job + 1 ∧
    Job.returnvalue job' = Job.returnvalue Sample.org1Job ∧
    JobData.transactionState (Job.data job') =
      JobData.transactionState (Job.data Sample.org1Job) ∧
    Job.data job' = Job.data Sample.org1Job.
Proof.
  eapply (@retryable_error_is_rethrown Sample.collaborators Sample.locals
            (Sample.failing "timeout") "1" Sample.oneJob
            Sample.org1Job
            Sample.org1Contracts "timeout");
    vm_compute; congruence.
Defined.

(** C6 on the job of Org3MSP, which has no contract. *)
Lemma missing_contract_gives_up_witness :
  ledgerCalls (processTransactionJob Sample.locals Sample.succeeding
                 Sample.org3Job) = [] ∧
  ∃ job',
    jobs Sample.afterMissingContract !! "2" = Some job' ∧
    Job.state job' = completed ∧
    Job.returnvalue job' =
      Some {| JobResult.transactionPayload := None;
              JobResult.transactionError := None |}.
Proof.
  destruct (@missing_contract_gives_up Sample.collaborators Sample.locals Sample.cfg
              [Enqueue "Org1MSP" "Transfer" true ["alice"; "bob"; "10"];
               Enqueue "Org3MSP" "Transfer" true ["carol"; "dave"; "1"];
               Claim "1"; Claim "2"]
              "2" Sample.succeeding Sample.org3Job)
    as (_ & Hcalls & job' & Hjob' & Hstate & _ & Hresult & _);
    [vm_compute; reflexivity..|].
  split; [exact Hcalls|]. exists job'. by repeat split.
Defined.


End ConcreteRuns.

(** C8 on an active job: its summary has no [result]. *)
Lemma summary_has_state_and_result_witness :
  JobSummary.state (getJobSummary Sample.resumedJob) = "active" ∧
  ¬ is_Some (JobSummary.result (getJobSummary Sample.resumedJob)).
Proof.
  destruct (summary_has_state_and_result Sample.resumedJob)
    as (Hstate & Hresult & _).
  split; [exact Hstate|].
  intros Hsome. apply Hresult in Hsome as [Hc|Hf]; discriminate.
Defined.

(** C9 on an environment that sets only the port, and on one that sets
    every job queue variable to a value of its own. *)
Lemma defaults_are_wired_witness :
  (∃ cfg,
     config.load {[ "PORT" := "8000" ]} = inr cfg ∧
     attempts (defaultJobOptions (jobQueue (main cfg))) = 5 ∧
     backoffType (defaultJobOptions (jobQueue (main cfg))) = config.fixed ∧
     backoffDelay (defaultJobOptions (jobQueue (main cfg))) = 3000 ∧
     removeOnComplete (defaultJobOptions (jobQueue (main cfg))) = 1000 ∧
     removeOnFail (defaultJobOptions (jobQueue (main cfg))) = 1000 ∧
     concurrency (jobQueueWorker (main cfg)) = 5 ∧
     jobQueueScheduler (main cfg) = Some initJobQueueScheduler) ∧
  config.load Sample.customEnv = inr Sample.custom ∧
  attempts (defaultJobOptions (jobQueue (main Sample.custom))) = 9 ∧
  backoffType (defaultJobOptions (jobQueue (main Sample.custom))) =
    config.exponential ∧
  backoffDelay (defaultJobOptions (jobQueue (main Sample.custom))) = 100 ∧
  removeOnComplete (defaultJobOptions (jobQueue (main Sample.custom))) = 7 ∧
  removeOnFail (defaultJobOptions (jobQueue (main Sample.custom))) = 8 ∧
  concurrency (jobQueueWorker (main Sample.custom)) = 3 ∧
  jobQueueScheduler (main Sample.custom) = None.
Proof.
  destruct (defaults_are_wired {[ "PORT" := "8000" ]}) as (Hdefault & _ & _).
  destruct (defaults_are_wired Sample.customEnv) as (_ & Hcustom & _).
  split; [apply Hdefault; unfold config.queueVariables; repeat constructor|].
  assert (Hload : config.load Sample.customEnv = inr Sample.custom)
    by (vm_compute; reflexivity).
  split; [exact Hload|].
  destruct (Hcustom Sample.custom Hload)
    as (Ha & Ht & Hd & Hc & Hf & Hw & Hs & Hsched).
  assert (Ha' : inr 9 =
    inr (A := config.ConfigError)
      (attempts (defaultJobOptions (jobQueue (main Sample.custom)))))
    by exact Ha.
  assert (Ht' : inr config.exponential =
    inr (A := config.ConfigError)
      (backoffType (defaultJobOptions (jobQueue (main Sample.custom)))))
    by exact Ht.
  assert (Hd' : inr 100 =
    inr (A := config.ConfigError)
      (backoffDelay (defaultJobOptions (jobQueue (main Sample.custom)))))
    by exact Hd.
  assert (Hc' : inr 7 =
    inr (A := config.ConfigError)
      (removeOnComplete (defaultJobOptions (jobQueue (main Sample.custom)))))
    by exact Hc.
  assert (Hf' : inr 8 =
    inr (A := config.ConfigError)
      (removeOnFail (defaultJobOptions (jobQueue (main Sample.custom)))))
    by exact Hf.
  assert (Hw' : inr 3 =
    inr (A := config.ConfigError)
      (concurrency (jobQueueWorker (main Sample.custom))))
    by exact Hw.
  assert (Hs' : inr false =
    inr (A := config.ConfigError)
      (bool_decide (is_Some (jobQueueScheduler (main Sample.custom)))))
    by exact Hs.
  repeat (split; [congruence|]).
  destruct Hsched as [Hnone|Hsome]; [exact Hnone|].
  rewrite Hsome in Hs'. discriminate Hs'.
Defined.

(** * Further properties of the code *)

(** ** More on the worker function *)

Section WorkerCalls.
Context `{Collaborators}.
Implicit Types (locals : Locals) (ledger : Ledger) (job : Job.t) (q : Queue).

Lemma processTransactionJob_ledgerCalls locals ledger job :
  ledgerCalls (processTransactionJob locals ledger job) =
  match locals !! JobData.mspId (Job.data job) with
  | None => []
  | Some cs => [theCall cs job]
  end.
Proof.
  unfold processTransactionJob, theCall, invoke, callSubmit, callEvaluate.
  destruct (locals !! JobData.mspId (Job.data job)) as [cs|]; [|reflexivity].
  cbn [fmap option_fmap option_map].
  destruct (JobData.transactionState (Job.data job)),
    (JobData.submit (Job.data job)); cbn;
    match goal with
    | |- context [submitTransaction ?l ?c ?n ?a] =>
        destruct (submitTransaction l c n a) as [bytes|e]
    | |- context [evatuateTransaction ?l ?c ?n ?a] =>
        destruct (evatuateTransaction l c n a) as [bytes|e]
    end; cbn; try reflexivity;
    destruct (getRetryAction e); reflexivity.
Qed.

Lemma ledgerReply_same_request ledger (c : Contract) job job' :
  JobData.transactionName (Job.data job) = JobData.transactionName (Job.data job') →
  JobData.submit (Job.data job) = JobData.submit (Job.data job') →
  JobData.transactionArgs (Job.data job) = JobData.transactionArgs (Job.data job') →
  ledgerReply ledger c job = ledgerReply ledger c job'.
Proof.
  intros Hname Hsubmit Hargs. unfold ledgerReply, invoke.
  by rewrite Hname, Hsubmit, Hargs.
Qed.

(** X1.  When the ledger call of an active job resolves, the worker function
    returns the decoded payload and no error; the job is completed, and its
    summary shows state completed with that result. *)
Theorem successful_attempt_records_payload locals ledger jobId q job cs bytes :
  jobs q !! jobId = Some job →
  Job.state job = active →
  locals !! JobData.mspId (Job.data job) = Some cs →
  ledgerReply ledger (contract cs) job = Resolved bytes →
  settled (processTransactionJob locals ledger job) =
    Resolved {| JobResult.transactionPayload := Some (utf8Decode bytes);
                JobResult.transactionError := None |} ∧
  ∃ job',
    jobs (step locals (Execute jobId ledger) q) !! jobId = Some job' ∧
    JobSummary.state (getJobSummary job') = "completed" ∧
    JobSummary.result (getJobSummary job') =
      Some (Some {| JobResult.transactionPayload := Some (utf8Decode bytes);
                    JobResult.transactionError := None |}).
Proof.
  intros Hjob Hactive Hcs Hreply.
  assert (Hret : settled (processTransactionJob locals ledger job) =
    Resolved {| JobResult.transactionPayload := Some (utf8Decode bytes);
                JobResult.transactionError := None |}).
  { by rewrite processTransactionJob_settled, Hcs, Hreply. }
  split; [done|].
  exists (attempt locals ledger job). split; [by apply lookup_execute|].
  unfold attempt. rewrite decide_True, Hret by done. by split.
Qed.

(** X2.  An attempt calls the ledger at most once: exactly once when the job's
    MSP id has a contract, with submit or evaluate as [data.submit] says,
    on that contract, with the job's transaction name and its arguments in
    order, whatever the call's outcome; and not at all otherwise. *)
Theorem attempt_calls_the_ledger_once locals ledger job :
  (length (ledgerCalls (processTransactionJob locals ledger job)) ≤ 1)%nat ∧
  (∀ cs, locals !! JobData.mspId (Job.data job) = Some cs →
     ledgerCalls (processTransactionJob locals ledger job) = [theCall cs job] ∧
     (JobData.submit (Job.data job) = true →
      theCall cs job =
        Submit (contract cs) (JobData.transactionName (Job.data job))
          (JobData.transactionArgs (Job.data job))) ∧
     (JobData.submit (Job.data job) = false →
      theCall cs job =
        Evaluate (contract cs) (JobData.transactionName (Job.data job))
          (JobData.transactionArgs (Job.data job)))) ∧
  (locals !! JobData.mspId (Job.data job) = None →
     ledgerCalls (processTransactionJob locals ledger job) = []).
Proof.
  rewrite processTransactionJob_ledgerCalls.
  destruct (locals !! JobData.mspId (Job.data job)) as [cs|]; simpl.
  - split; [lia|]. split; [|done].
    intros ? [= <-]. unfold theCall. split; [done|].
    split; intros ->; done.
  - split; [lia|]. split; [done|done].
Qed.

(** X3.  The saved transaction state and the recorded transaction ids are
    never used: two jobs with the same MSP id, transaction name, submit flag
    and arguments get the same outcome and make the same ledger call,
    whatever else they carry. *)
Theorem saved_state_is_never_used locals ledger job job' :
  JobData.mspId (Job.data job) = JobData.mspId (Job.data job') →
  JobData.transactionName (Job.data job) =
    JobData.transactionName (Job.data job') →
  JobData.submit (Job.data job) = JobData.submit (Job.data job') →
  JobData.transactionArgs (Job.data job) =
    JobData.transactionArgs (Job.data job') →
  settled (processTransactionJob locals ledger job) =
    settled (processTransactionJob locals ledger job') ∧
  ledgerCalls (processTransactionJob locals ledger job) =
    ledgerCalls (processTransactionJob locals ledger job').
Proof.
  intros Hmsp Hname Hsubmit Hargs.
  rewrite !processTransactionJob_settled, !processTransactionJob_ledgerCalls.
  rewrite Hmsp.
  destruct (locals !! JobData.mspId (Job.data job')) as [cs|]; [|done].
  rewrite (ledgerReply_same_request ledger (contract cs) job job') by done.
  split; [done|]. unfold theCall. by rewrite Hname, Hsubmit, Hargs.
Qed.

(** X4.  The worker function throws exactly when the job's MSP id has a
    contract, the ledger call is rejected, and the classifier does not map
    the error to [RetryAction.None]; what it throws is that very error.  In
    every other case it returns a result. *)
Theorem worker_function_throws_iff_retryable locals ledger job e :
  settled (processTransactionJob locals ledger job) = Rejected e ↔
  ∃ cs,
    locals !! JobData.mspId (Job.data job) = Some cs ∧
    ledgerReply ledger (contract cs) job = Rejected e ∧
    getRetryAction e ≠ RetryAction.None.
Proof.
  rewrite processTransactionJob_settled. split.
  - destruct (locals !! JobData.mspId (Job.data job)) as [cs|]; [|done].
    destruct (ledgerReply ledger (contract cs) job) as [bytes|e'] eqn:Hreply;
      [done|].
    destruct (RetryAction.eqb (getRetryAction e') RetryAction.None) eqn:Hact;
      [done|].
    intros [= ->]. exists cs. split; [done|]. split; [done|].
    by apply RetryAction_eqb_neq.
  - intros (cs & -> & -> & Hne).
    apply RetryAction_eqb_neq in Hne. by rewrite Hne.
Qed.
End WorkerCalls.

(** ** More on the read model *)

Lemma pretty_N_go_nonempty (x : N) (s : string) :
  s ≠ "" → pretty_N_go x s ≠ "".
Proof.
  revert s. induction (N.lt_wf_0 x) as [x _ IH]. intros s Hs.
  destruct (decide (x = 0%N)) as [->|Hx]; [by rewrite pretty_N_go_0|].
  rewrite pretty_N_go_step by lia.
  apply IH; [apply N.div_lt; lia | done].
Qed.

Lemma pretty_N_nonempty (n : N) : pretty n ≠ "".
Proof.
  unfold pretty, pretty_N. case_decide; [done|].
  rewrite pretty_N_go_step by lia. by apply pretty_N_go_nonempty.
Qed.

Lemma getJob_lookup (t : string) (q q' : Queue) (jobId : string) :
  jobs q !! jobId = jobs q' !! jobId →
  getJob t q jobId = getJob t q' jobId.
Proof. unfold getJob, Queue_getJob. by intros ->. Qed.

Lemma getJob_hidden (t : string) (q : Queue) (jobId : string) :
  (∀ job, jobs q !! jobId = Some job → JobData.mspId (Job.data job) ≠ t) →
  getJob t q jobId = Rejected (jobNotFound jobId).
Proof.
  intros Hhidden. destruct (jobs q !! jobId) as [job|] eqn:Hjob.
  - apply (getJob_other_msp t q jobId job); [done|]. by apply Hhidden.
  - unfold getJob, Queue_getJob. by rewrite Hjob.
Qed.

Lemma getState_allJobTypes (job : Job.t) : getState job ∈ allJobTypes.
Proof.
  unfold getState, allJobTypes. destruct (Job.state job); set_solver.
Qed.

(** X5.  [getJob] resolves exactly for a stored job that has an id and whose
    [data.mspId] is the caller's, and then with that job's summary. *)
Theorem getJob_resolves_iff_own_job (t : string) (q : Queue) (jobId : string)
    (s : JobSummary) :
  getJob t q jobId = Resolved s ↔
  ∃ job,
    Queue_getJob q jobId = Some job ∧
    is_Some (Job.id job) ∧
    JobData.mspId (Job.data job) = t ∧
    s = getJobSummary job.
Proof.
  unfold getJob. split.
  - destruct (Queue_getJob q jobId) as [job|]; [|done].
    destruct (Job.id job) as [i|] eqn:Hid; [|done].
    destruct (String.eqb (JobData.mspId (Job.data job)) t) eqn:Hmsp; [|done].
    simpl. intros [= <-]. exists job. rewrite Hid.
    apply String.eqb_eq in Hmsp. eauto.
  - intros (job & -> & [i Hid] & Hmsp & ->). rewrite Hid.
    apply String.eqb_eq in Hmsp. by rewrite Hmsp.
Qed.

(** X6.  [getAllJobs] returns exactly the summaries of the stored jobs whose
    [data.mspId] is the caller's: none is left out, whatever its state. *)
Theorem getAllJobs_lists_exactly_own_jobs (t : string) (q : Queue)
    (s : JobSummary) :
  s ∈ getAllJobs t q ↔
  ∃ jobId job,
    jobs q !! jobId = Some job ∧
    JobData.mspId (Job.data job) = t ∧
    s = getJobSummary job.
Proof.
  split; [apply getAllJobs_elem|].
  intros (jobId & job & Hjob & Hmsp & ->).
  unfold getAllJobs, Queue_getJobs.
  apply list_elem_of_fmap. exists job. split; [done|].
  apply list_elem_of_filter. split; [by apply String.eqb_eq|].
  apply list_elem_of_filter. split; [apply getState_allJobTypes|].
  apply list_elem_of_fmap. exists (jobId, job). split; [done|].
  by apply elem_of_map_to_list.
Qed.

(** X7.  Round trip of enqueue and read: [addTransactionJob] resolves with
    an id under which the caller reads back a waiting job named after the
    transaction, with no attempt made, no transaction ids and no result,
    while any other MSP id gets [JobNotFoundError] for that id. *)
Theorem added_job_is_read_back (q : Queue) (t transactionName : string)
    (submit : bool) (transactionArgs : list string) :
  ∃ jobId,
    (addTransactionJob q t transactionName submit transactionArgs).1 =
      Resolved jobId ∧
    getJob t (addTransactionJob q t transactionName submit transactionArgs).2
      jobId =
      Resolved {| JobSummary.jobId := jobId;
                  JobSummary.name := transactionName +:+ " transaction";
                  JobSummary.state := "waiting";
                  JobSummary.attempts := 0;
                  JobSummary.transactionIds := [];
                  JobSummary.result := None |} ∧
    ∀ t', t' ≠ t →
      getJob t' (addTransactionJob q t transactionName submit transactionArgs).2
        jobId = Rejected (jobNotFound jobId).
Proof.
  exists (pretty (idCounter q + 1)%N). split; [done|]. split.
  - unfold getJob, Queue_getJob; simpl. rewrite lookup_insert_eq; simpl.
    rewrite String.eqb_refl; simpl. unfold getJobSummary; simpl.
    destruct (String.eqb (pretty (idCounter q + 1)%N) "") eqn:Hempty; [|done].
    apply String.eqb_eq in Hempty. by apply pretty_N_nonempty in Hempty.
  - intros t' Hne. apply getJob_hidden. simpl.
    rewrite lookup_insert_eq. intros job [= <-]. simpl. congruence.
Qed.

Section ReadsAfterEvents.
Context `{Collaborators}.
Implicit Types (locals : Locals) (ledger : Ledger) (job : Job.t) (q : Queue).

Lemma attempt_id locals ledger job :
  Job.id (attempt locals ledger job) = Job.id job.
Proof.
  unfold attempt, settle, moveToCompleted, moveToFailed.
  case_decide; [|done].
  destruct (settled _); [done|]. by case_match.
Qed.

Lemma claim_id job : Job.id (claim job) = Job.id job.
Proof. unfold claim. by case_decide. Qed.

Lemma promote_id job : Job.id (promote job) = Job.id job.
Proof. unfold promote. by case_decide. Qed.

Lemma stall_id job : Job.id (stall job) = Job.id job.
Proof. unfold stall. by case_decide. Qed.

(** In a queue started by [initJobQueue] every job is stored under its own
    id. *)
Lemma run_ids_match locals cfg evs jobId job :
  jobs (run locals evs (initJobQueue cfg)) !! jobId = Some job →
  Job.id job = Some jobId.
Proof.
  assert (Hgen : ∀ evs q,
    (∀ k j, jobs q !! k = Some j → Job.id j = Some k) →
    ∀ k j, jobs (run locals evs q) !! k = Some j → Job.id j = Some k).
  { clear. intros evs. induction evs as [|ev evs IH]; intros q Hq; [done|].
    rewrite run_cons. apply IH. intros k j.
    destruct ev as [m tn sb ar|i|i l|i|i|i]; cbn [step].
    - simpl. destruct (decide (pretty (idCounter q + 1)%N = k)) as [<-|Hne].
      + rewrite lookup_insert_eq. by intros [= <-].
      + rewrite lookup_insert_ne by done. apply Hq.
    - rewrite lookup_updateJob. case_decide; [|apply Hq].
      destruct (jobs q !! k) as [j0|] eqn:Hk; [|done].
      intros [= <-]. rewrite claim_id. by apply Hq.
    - rewrite lookup_updateJob. case_decide; [|apply Hq].
      destruct (jobs q !! k) as [j0|] eqn:Hk; [|done].
      intros [= <-]. rewrite attempt_id. by apply Hq.
    - rewrite lookup_updateJob. case_decide; [|apply Hq].
      destruct (jobs q !! k) as [j0|] eqn:Hk; [|done].
      intros [= <-]. rewrite promote_id. by apply Hq.
    - rewrite lookup_updateJob. case_decide; [|apply Hq].
      destruct (jobs q !! k) as [j0|] eqn:Hk; [|done].
      intros [= <-]. rewrite stall_id. by apply Hq.
    - unfold purge. repeat case_match; try apply Hq.
      simpl. intros Hk. apply Hq.
      destruct (decide (i = k)) as [->|Hne].
      + by rewrite lookup_delete_eq in Hk.
      + by rewrite lookup_delete_ne in Hk. }
  apply Hgen. intros k j. simpl. by rewrite lookup_empty.
Qed.

(** The next id of a queue started by [initJobQueue] is not in use. *)
Lemma run_next_id_fresh locals cfg evs :
  jobs (run locals evs (initJobQueue cfg))
    !! pretty (idCounter (run locals evs (initJobQueue cfg)) + 1)%N = None.
Proof.
  apply eq_None_not_Some. intros Hsome.
  apply run_ids_issued in Hsome as (n & Hn & Heq).
  apply (inj pretty) in Heq. lia.
Qed.

(** X8.  In a queue started by [initJobQueue], every summary [getAllJobs]
    lists for a caller carries the id under which [getJob] gives the same
    caller that very summary. *)
Theorem listed_job_can_be_fetched locals cfg evs (t : string) (s : JobSummary) :
  s ∈ getAllJobs t (run locals evs (initJobQueue cfg)) →
  getJob t (run locals evs (initJobQueue cfg)) (JobSummary.jobId s) =
    Resolved s.
Proof.
  intros (jobId & job & Hjob & Hmsp & ->)%getAllJobs_elem.
  assert (Hid := run_ids_match _ _ _ _ _ Hjob).
  assert (Hissued : issued (run locals evs (initJobQueue cfg)) jobId).
  { apply run_ids_issued. by rewrite Hjob. }
  assert (JobSummary.jobId (getJobSummary job) = jobId) as ->.
  { unfold getJobSummary; simpl. rewrite Hid.
    destruct (String.eqb jobId "") eqn:Hempty; [|done].
    apply String.eqb_eq in Hempty. destruct Hissued as (n & _ & ->).
    by apply pretty_N_nonempty in Hempty. }
  unfold getJob, Queue_getJob. rewrite Hjob, Hid.
  apply String.eqb_eq in Hmsp. by rewrite Hmsp.
Qed.

(** What a caller sees of a list of stored jobs. *)
Lemma getAllJobs_unfold (t : string) q :
  getAllJobs t q =
  getJobSummary <$>
    filter (λ job, String.eqb (JobData.mspId (Job.data job)) t = true)
      (filter (λ job, getState job ∈ allJobTypes) (map_to_list (jobs q)).*2).
Proof. reflexivity. Qed.

Lemma visible_cons_other (t : string) (jobId : string) job
    (l : list (string * Job.t)) :
  JobData.mspId (Job.data job) ≠ t →
  getJobSummary <$>
    filter (λ job, String.eqb (JobData.mspId (Job.data job)) t = true)
      (filter (λ job, getState job ∈ allJobTypes) ((jobId, job) :: l).*2) =
  getJobSummary <$>
    filter (λ job, String.eqb (JobData.mspId (Job.data job)) t = true)
      (filter (λ job, getState job ∈ allJobTypes) l.*2).
Proof.
  intros Hne. rewrite fmap_cons. simpl.
  rewrite filter_cons_True by apply getState_allJobTypes.
  rewrite filter_cons_False; [done|].
  intros Heq. by apply String.eqb_eq in Heq.
Qed.

Lemma getAllJobs_alter_other (t : string) (f : Job.t → Job.t) jobId q :
  (∀ job, Job.data (f job) = Job.data job) →
  (∀ job, jobs q !! jobId = Some job → JobData.mspId (Job.data job) ≠ t) →
  getAllJobs t (updateJob f jobId q) ≡ₚ getAllJobs t q.
Proof.
  intros Hdata Hother. rewrite !getAllJobs_unfold. unfold updateJob; simpl.
  destruct (jobs q !! jobId) as [job|] eqn:Hjob.
  - assert (alter f jobId (jobs q) = <[jobId := f job]> (delete jobId (jobs q)))
      as ->.
    { apply map_eq. intros k. rewrite lookup_alter, lookup_insert.
      case_decide; [subst; by rewrite Hjob|]. by rewrite lookup_delete_ne. }
    rewrite map_to_list_insert by apply lookup_delete_eq.
    rewrite <- (map_to_list_delete (jobs q) jobId job) by done.
    rewrite !visible_cons_other; [done|by apply Hother|].
    rewrite Hdata. by apply Hother.
  - assert (alter f jobId (jobs q) = jobs q) as ->; [|done].
    apply map_eq. intros k. rewrite lookup_alter.
    case_decide; [subst; by rewrite Hjob|done].
Qed.

(** X9.  Tenant isolation of reads under events that finish no job.  In a
    queue started by [initJobQueue], a job enqueued by another MSP id, or a
    job of another MSP id (or no stored job) being claimed or promoted,
    changes nothing of what a caller reads: [getJob] answers the same for
    every job id, and [getAllJobs] lists the same summaries. *)
Theorem other_tenants_events_are_invisible locals cfg evs ev (t : string) :
  quietForeignEvent t (run locals evs (initJobQueue cfg)) ev →
  (∀ jobId,
     getJob t (step locals ev (run locals evs (initJobQueue cfg))) jobId =
     getJob t (run locals evs (initJobQueue cfg)) jobId) ∧
  getAllJobs t (step locals ev (run locals evs (initJobQueue cfg)))
    ≡ₚ getAllJobs t (run locals evs (initJobQueue cfg)).
Proof.
  pose proof (run_next_id_fresh locals cfg evs) as Hfresh.
  set (q := run locals evs (initJobQueue cfg)) in *. clearbody q.
  intros Hother.
  assert (Hupd : ∀ (f : Job.t → Job.t) i,
    (∀ job, Job.data (f job) = Job.data job) →
    JobData.mspId ∘ Job.data <$> jobs q !! i ≠ Some t →
    (∀ jobId, getJob t (updateJob f i q) jobId = getJob t q jobId) ∧
    getAllJobs t (updateJob f i q) ≡ₚ getAllJobs t q).
  { intros f i Hdata Hi.
    assert (Hjob : ∀ job, jobs q !! i = Some job →
                          JobData.mspId (Job.data job) ≠ t).
    { intros job Hjob Hmsp. apply Hi. rewrite Hjob. simpl. by rewrite Hmsp. }
    split; [|by apply getAllJobs_alter_other].
    intros jobId. destruct (decide (i = jobId)) as [->|Hne].
    - rewrite (getJob_hidden t q jobId) by done.
      apply getJob_hidden. intros job'. rewrite lookup_updateJob, decide_True by done.
      destruct (jobs q !! jobId) as [job|] eqn:Hq; [|done].
      intros [= <-]. rewrite Hdata. by apply Hjob.
    - apply getJob_lookup. by rewrite lookup_updateJob, decide_False. }
  destruct ev as [m tn sb ar|i|i l|i|i|i];
    cbn [step quietForeignEvent] in *; try done.
  - split.
    + intros jobId. simpl.
      destruct (decide (pretty (idCounter q + 1)%N = jobId)) as [<-|Hne].
      * rewrite (getJob_hidden t q) by (intros job; by rewrite Hfresh).
        apply getJob_hidden. simpl. rewrite lookup_insert_eq.
        intros job [= <-]. done.
      * apply getJob_lookup. simpl. by rewrite lookup_insert_ne.
    + rewrite !getAllJobs_unfold. simpl.
      rewrite map_to_list_insert by done.
      by rewrite visible_cons_other.
  - apply Hupd; [apply claim_data|done].
  - apply Hupd; [apply promote_data|done].
Qed.
End ReadsAfterEvents.

(** ** The jobs endpoints *)

(** X10.  GET /:jobId answers 200 with the job's summary when the id names a
    stored job of the caller's MSP id, and 404 otherwise; the 404 body holds
    the reason phrase and the time only, so the answer for another
    organisation's job is the one for an id that does not exist. *)
Theorem job_endpoint_hides_other_tenants (now t : string) (q : Queue)
    (jobId : string) :
  (∃ job,
     jobs q !! jobId = Some job ∧
     is_Some (Job.id job) ∧
     JobData.mspId (Job.data job) = t ∧
     jobsRouter.getOne now t q jobId =
       jobsRouter.mkResponse StatusCodes.OK
         (jobsRouter.Summary (getJobSummary job))) ∨
  ((∀ job, jobs q !! jobId = Some job → is_Some (Job.id job) →
           JobData.mspId (Job.data job) ≠ t) ∧
   jobsRouter.getOne now t q jobId =
     jobsRouter.mkResponse StatusCodes.NOT_FOUND
       (jobsRouter.Problem "Not Found" now)).
Proof.
  unfold jobsRouter.getOne, getJob, Queue_getJob.
  destruct (jobs q !! jobId) as [job|] eqn:Hjob; [|right; by split].
  destruct (Job.id job) as [i|] eqn:Hid.
  - destruct (String.eqb (JobData.mspId (Job.data job)) t) eqn:Hmsp; simpl.
    + left. exists job. apply String.eqb_eq in Hmsp. rewrite Hid. eauto.
    + right. split; [|done]. intros ? [= <-] _.
      by apply String.eqb_neq in Hmsp.
  - right. split; [|done]. intros ? [= <-] [? ?]. congruence.
Qed.

(** X11.  POST /: a request with validation errors is answered 400 with
    those errors and leaves the queue as it is; a request without is
    answered 202 with a job id, under which the same caller then gets, from
    GET /:jobId, a waiting job named after the transaction. *)
Theorem create_endpoint_round_trip (now later : string)
    (req : jobsRouter.CreateRequest) (q : Queue) :
  (jobsRouter.validationErrors req ≠ [] →
   jobsRouter.post now req q =
     (jobsRouter.mkResponse StatusCodes.BAD_REQUEST
        (jobsRouter.Invalid "Bad Request" "VALIDATION_ERROR"
           "Invalid request body" now (jobsRouter.validationErrors req)),
      q)) ∧
  (jobsRouter.validationErrors req = [] →
   ∃ jobId,
     (jobsRouter.post now req q).1 =
       jobsRouter.mkResponse StatusCodes.ACCEPTED
         (jobsRouter.Accepted "Accepted" jobId now) ∧
     jobsRouter.getOne later (jobsRouter.user req)
       (jobsRouter.post now req q).2 jobId =
       jobsRouter.mkResponse StatusCodes.OK
         (jobsRouter.Summary
            {| JobSummary.jobId := jobId;
               JobSummary.name := jobsRouter.transaction req +:+ " transaction";
               JobSummary.state := "waiting";
               JobSummary.attempts := 0;
               JobSummary.transactionIds := [];
               JobSummary.result := None |})).
Proof.
  unfold jobsRouter.post. split.
  - destruct (jobsRouter.validationErrors req); [done|done].
  - intros ->. exists (pretty (idCounter q + 1)%N). split; [done|].
    unfold jobsRouter.getOne, getJob, Queue_getJob; simpl.
    rewrite lookup_insert_eq; simpl. rewrite String.eqb_refl; simpl.
    do 3 f_equal.
    unfold getJobSummary; simpl.
    destruct (String.eqb (pretty (idCounter q + 1)%N) "") eqn:Hempty; [|done].
    apply String.eqb_eq in Hempty. by apply pretty_N_nonempty in Hempty.
Qed.

(** ** The ledger calls of fabric.ts *)

Section FabricCalls.
Context `{Collaborators} {Raw : Type}.
Variable handleError : string → Raw → Error.
Variable newProposal : Contract → string → list string → fabric.Proposal Raw.


(** X13.  A commit status that reports failure does not fail a job: when a
    submit job's transaction is endorsed and submitted and its commit status
    is obtained, the worker function returns the transaction's decoded
    result as the payload, with no error, whatever the status says. *)
Theorem commit_status_is_not_inspected (locals : Locals) (job : Job.t)
    (cs : Contracts) (transaction : fabric.Transaction Raw)
    (commit : fabric.Commit Raw) (status : fabric.Status) :
  JobData.submit (Job.data job) = true →
  locals !! JobData.mspId (Job.data job) = Some cs →
  fabric.endorse
    (newProposal (contract cs)
       (JobData.transactionName (Job.data job))
       (JobData.transactionArgs (Job.data job))) = Resolved transaction →
  fabric.submit transaction = Resolved commit →
  fabric.getStatus commit = Resolved status →
  settled (processTransactionJob locals
             (fabric.ledger handleError newProposal) job) =
    Resolved {| JobResult.transactionPayload :=
                  Some (utf8Decode (fabric.getResult transaction));
                JobResult.transactionError := None |}.
Proof.
  intros Hsubmit Hcs Hendorse Hsub Hstatus.
  rewrite processTransactionJob_settled, Hcs.
  unfold ledgerReply, invoke. rewrite Hsubmit.
  unfold callSubmit, settled, fabric.ledger; simpl.
  unfold fabric.submitTransaction. by rewrite Hendorse, Hsub, Hstatus.
Qed.

(** X14.  Every error of an evaluation reaches the classifier converted:
    when a job that is not a submit has its evaluation rejected, the worker
    function classifies [handleError] of the proposal's transaction id and
    the gateway's error, and a job the classifier maps to
    [RetryAction.None] ends with that converted error's text. *)
Theorem evaluation_error_is_converted (locals : Locals) (job : Job.t)
    (cs : Contracts) (raw : Raw) :
  JobData.submit (Job.data job) = false →
  locals !! JobData.mspId (Job.data job) = Some cs →
  fabric.evaluate
    (newProposal (contract cs)
       (JobData.transactionName (Job.data job))
       (JobData.transactionArgs (Job.data job))) = Rejected raw →
  let e := handleError
             (fabric.getTransactionId
                (newProposal (contract cs)
                   (JobData.transactionName (Job.data job))
                   (JobData.transactionArgs (Job.data job)))) raw in
  settled (processTransactionJob locals
             (fabric.ledger handleError newProposal) job) =
    if RetryAction.eqb (getRetryAction e) RetryAction.None
    then Resolved {| JobResult.transactionPayload := None;
                     JobResult.transactionError := Some (errorText e) |}
    else Rejected e.
Proof.
  intros Hsubmit Hcs Hevaluate e. subst e.
  rewrite processTransactionJob_settled, Hcs.
  unfold ledgerReply, invoke. rewrite Hsubmit.
  unfold callEvaluate, settled, fabric.ledger; simpl.
  unfold fabric.evatuateTransaction. by rewrite Hevaluate.
Qed.
End FabricCalls.

(** ** The contracts [main] wires *)

Section WiredContracts.
Context {E : Type} (classify : E → RetryAction) (text : E → string)
        (decode : Uint8Array → string).

Lemma lookup_wired_locals (cfg : index.FabricConfig) (m : string) :
  index.locals classify text decode cfg !! m =
  if decide (index.mspIdOrg2 cfg = m)
  then Some (index.contractsOrg2 classify text decode cfg)
  else if decide (index.mspIdOrg1 cfg = m)
       then Some (index.contractsOrg1 classify text decode cfg)
       else None.
Proof.
  unfold index.locals. rewrite lookup_insert. case_decide; [done|].
  rewrite lookup_insert. case_decide; [done|]. apply lookup_empty.
Qed.

(** X15.  With the contracts [main] stores in [app.locals], a job of one of
    the two configured MSP ids makes its one ledger call on the configured
    chaincode and channel, and a job of any other MSP id is given up with
    the empty result without a ledger call. *)
Theorem wired_contracts_decide_the_attempt (cfg : index.FabricConfig)
    (ledger : @Ledger (index.collaborators classify text decode))
    (job : Job.t) :
  let run :=
    @processTransactionJob (index.collaborators classify text decode)
      (index.locals classify text decode cfg) ledger job in
  ((JobData.mspId (Job.data job) = index.mspIdOrg1 cfg ∨
    JobData.mspId (Job.data job) = index.mspIdOrg2 cfg) ∧
   ∃ cs,
     ledgerCalls run = [theCall cs job] ∧
     index.chaincode (contract cs) = index.chaincodeName cfg ∧
     index.channel (contract cs) = index.channelName cfg) ∨
  (JobData.mspId (Job.data job) ≠ index.mspIdOrg1 cfg ∧
   JobData.mspId (Job.data job) ≠ index.mspIdOrg2 cfg ∧
   settled run =
     Resolved {| JobResult.transactionPayload := None;
                 JobResult.transactionError := None |} ∧
   ledgerCalls run = []).
Proof.
  intros run. subst run.
  rewrite processTransactionJob_settled, processTransactionJob_ledgerCalls.
  rewrite lookup_wired_locals.
  destruct (decide (index.mspIdOrg2 cfg = JobData.mspId (Job.data job)))
    as [Heq2|Hne2].
  - left. split; [by right|]. eexists. split; [done|]. done.
  - destruct (decide (index.mspIdOrg1 cfg = JobData.mspId (Job.data job)))
      as [Heq1|Hne1].
    + left. split; [by left|]. eexists. split; [done|]. done.
    + right. repeat split; congruence.
Qed.

(** X16.  The gateway [main] stores for the second organisation is created
    from the first organisation's MSP id, certificate and private key, on
    the second organisation's connection: the ledger call of a job of the
    second MSP id is made under the first organisation's identity and
    signer. *)
Theorem second_org_jobs_use_first_org_identity (cfg : index.FabricConfig)
    (ledger : @Ledger (index.collaborators classify text decode))
    (job : Job.t) :
  JobData.mspId (Job.data job) = index.mspIdOrg2 cfg →
  ∃ cs,
    ledgerCalls
      (@processTransactionJob (index.collaborators classify text decode)
         (index.locals classify text decode cfg) ledger job) =
      [theCall cs job] ∧
    index.identity (index.gateway (contract cs)) =
      index.createIdentity (index.mspIdOrg1 cfg) (index.certificateOrg1 cfg) ∧
    index.mspId (index.identity (index.gateway (contract cs))) =
      index.mspIdOrg1 cfg ∧
    index.signer (index.gateway (contract cs)) =
      index.createSigner (index.privateKeyOrg1 cfg) ∧
    index.peerEndpoint (index.client (index.gateway (contract cs))) =
      index.peerAddressOrg2 cfg.
Proof.
  intros Hmsp.
  rewrite processTransactionJob_ledgerCalls, lookup_wired_locals.
  rewrite decide_True by done.
  eexists. split; [done|]. by repeat split.
Qed.
End WiredContracts.

(** ** The further properties on concrete runs *)

Section FurtherRuns.
#[local] Existing Instance Sample.collaborators.

(** X1 on the claimed sample job and a ledger that answers "ok". *)
Lemma successful_attempt_records_payload_witness :
  settled (processTransactionJob Sample.locals Sample.succeeding
             Sample.org1Job) =
    Resolved {| JobResult.transactionPayload := Some "ok";
                JobResult.transactionError := None |} ∧
  ∃ job',
    jobs (step Sample.locals (Execute "1" Sample.succeeding) Sample.oneJob)
      !! "1" = Some job' ∧
    JobSummary.state (getJobSummary job') = "completed" ∧
    JobSummary.result (getJobSummary job') =
      Some (Some {| JobResult.transactionPayload := Some "ok";
                    JobResult.transactionError := None |}).
Proof.
  apply (@successful_attempt_records_payload Sample.collaborators
           Sample.locals Sample.succeeding "1" Sample.oneJob Sample.org1Job
           Sample.org1Contracts (String.list_byte_of_string "ok"));
    vm_compute; reflexivity.
Defined.

(** X2 on the claimed sample job. *)
Lemma attempt_calls_the_ledger_once_witness :
  ledgerCalls (processTransactionJob Sample.locals (Sample.failing "bad")
                 Sample.org1Job) =
    [Submit (contract Sample.org1Contracts) "Transfer" ["alice"; "bob"; "10"]].
Proof.
  destruct (@attempt_calls_the_ledger_once Sample.collaborators Sample.locals
              (Sample.failing "bad") Sample.org1Job) as (_ & Hcall & _).
  destruct (Hcall Sample.org1Contracts) as (Hcalls & _); [vm_compute; reflexivity|].
  exact Hcalls.
Defined.

(** X3 on the claimed sample job and a job with the same request that
    carries a saved state and two recorded ids. *)
Lemma saved_state_is_never_used_witness :
  settled (processTransactionJob Sample.locals (Sample.failing "conflict")
             Sample.org1Job) =
    settled (processTransactionJob Sample.locals (Sample.failing "conflict")
               Demo.retriedJob) ∧
  ledgerCalls (processTransactionJob Sample.locals (Sample.failing "conflict")
                 Sample.org1Job) =
    ledgerCalls (processTransactionJob Sample.locals
                   (Sample.failing "conflict") Demo.retriedJob).
Proof.
  apply (@saved_state_is_never_used Sample.collaborators Sample.locals
           (Sample.failing "conflict") Sample.org1Job Demo.retriedJob);
    reflexivity.
Defined.

(** X8 on the two-job sample queue. *)
Lemma listed_job_can_be_fetched_witness :
  getJob "Org1MSP" Sample.twoJobs "1" = Resolved (getJobSummary Sample.org1Job).
Proof.
  apply (@listed_job_can_be_fetched Sample.collaborators Sample.locals
           Sample.cfg
           [Enqueue "Org1MSP" "Transfer" true ["alice"; "bob"; "10"];
            Enqueue "Org3MSP" "Transfer" true ["carol"; "dave"; "1"];
            Claim "1"; Claim "2"]
           "Org1MSP" (getJobSummary Sample.org1Job)).
  vm_compute. apply list_elem_of_here.
Defined.

(** X9: the worker claiming the job of Org3MSP changes nothing of what
    Org1MSP reads. *)
Lemma other_tenants_events_are_invisible_witness :
  (∀ jobId,
     getJob "Org1MSP" (step Sample.locals (Claim "2") Demo.beforeSecondClaim)
       jobId =
     getJob "Org1MSP" Demo.beforeSecondClaim jobId) ∧
  getAllJobs "Org1MSP" (step Sample.locals (Claim "2") Demo.beforeSecondClaim)
    ≡ₚ getAllJobs "Org1MSP" Demo.beforeSecondClaim.
Proof.
  apply (@other_tenants_events_are_invisible Sample.collaborators
           Sample.locals Sample.cfg
           [Enqueue "Org1MSP" "Transfer" true ["alice"; "bob"; "10"];
            Enqueue "Org3MSP" "Transfer" true ["carol"; "dave"; "1"];
            Claim "1"]
           (Claim "2") "Org1MSP").
  vm_compute. congruence.
Defined.

(** X11 on a valid create request to the empty queue. *)
Lemma create_endpoint_round_trip_witness :
  ∃ jobId,
    (jobsRouter.post "10:00" Demo.createRequest (initJobQueue Sample.cfg)).1 =
      jobsRouter.mkResponse StatusCodes.ACCEPTED
        (jobsRouter.Accepted "Accepted" jobId "10:00") ∧
    jobsRouter.getOne "10:01" "Org1MSP"
      (jobsRouter.post "10:00" Demo.createRequest (initJobQueue Sample.cfg)).2
      jobId =
      jobsRouter.mkResponse StatusCodes.OK
        (jobsRouter.Summary
           {| JobSummary.jobId := jobId;
              JobSummary.name := "Transfer transaction";
              JobSummary.state := "waiting";
              JobSummary.attempts := 0;
              JobSummary.transactionIds := [];
              JobSummary.result := None |}).
Proof.
  destruct (create_endpoint_round_trip "10:00" "10:01" Demo.createRequest
              (initJobQueue Sample.cfg)) as [_ Hvalid].
  apply Hvalid. reflexivity.
Defined.

(** X13 on a network that invalidates every transaction at commit. *)
Lemma commit_status_is_not_inspected_witness :
  fabric.successful (fabric.mkStatus false 11) = false ∧
  settled (processTransactionJob Sample.locals
             (fabric.ledger Demo.handleError Demo.newProposal)
             Sample.org1Job) =
    Resolved {| JobResult.transactionPayload := Some "ok";
                JobResult.transactionError := None |}.
Proof.
  split; [reflexivity|].
  apply (@commit_status_is_not_inspected Sample.collaborators string
           Demo.handleError Demo.newProposal Sample.locals Sample.org1Job
           Sample.org1Contracts Demo.endorsed Demo.invalidated
           (fabric.mkStatus false 11)); vm_compute; reflexivity.
Defined.

(** X14 on a query the network refuses. *)
Lemma evaluation_error_is_converted_witness :
  settled (processTransactionJob Sample.locals
             (fabric.ledger Demo.handleError Demo.newProposal)
             Demo.queryJob) =
    Resolved {| JobResult.transactionPayload := None;
                JobResult.transactionError :=
                  Some "Error: tx-Read: no such key" |}.
Proof.
  apply (@evaluation_error_is_converted Sample.collaborators string
           Demo.handleError Demo.newProposal Sample.locals Demo.queryJob
           Sample.org1Contracts "no such key"); vm_compute; reflexivity.
Defined.

End FurtherRuns.

(** X16 on the settings of two organisations: the call of a job of Org2MSP
    goes out under the identity of Org1MSP. *)
Lemma second_org_jobs_use_first_org_identity_witness :
  ∃ cs,
    ledgerCalls
      (@processTransactionJob
         (index.collaborators Sample.classify (λ e, "Error: " +:+ e)
            String.string_of_list_byte)
         (index.locals Sample.classify (λ e, "Error: " +:+ e)
            String.string_of_list_byte Demo.fabricConfig)
         Demo.wiredLedger Demo.org2Job) = [theCall cs Demo.org2Job] ∧
    index.mspId (index.identity (index.gateway (contract cs))) = "Org1MSP" ∧
    index.peerEndpoint (index.client (index.gateway (contract cs))) =
      "localhost:9051".
Proof.
  destruct (second_org_jobs_use_first_org_identity Sample.classify
              (λ e, "Error: " +:+ e) String.string_of_list_byte
              Demo.fabricConfig Demo.wiredLedger Demo.org2Job)
    as (cs & Hcalls & _ & Hmsp & _ & Hpeer); [reflexivity|].
  exists cs. by repeat split.
Defined.
